(** * with_emulators: the emulator supervisor, embedded and verified

    The repository carries several snapshots of one Go program.  The
    newest one (the [Emulator] variant) is embedded in full; of the older
    ones ([cmd.go], and the [PubSub]/[Datastore] variant) the functions
    that differ are embedded next to it, in modules of their own.

    - [GoStrings]: the functions of Go's [strings] package the program calls.
    - [Chan]: channels of type [chan struct{}], by what [close] does to them.
    - [Watch]: the [watchFor] writer and its [Write] method.
    - [Proc]: system calls as events of a small program monad, and runs of
      a program against a world that answers the calls.
    - [Supervisor]: [Emulator], its methods and [main].
    - [PubSubVariant], [CmdGo]: the older snapshots.
    - [Signals]: the goroutine started by [forwardSignals], as a step
      relation.

    The properties follow the definitions: strings, [Env], the watcher,
    [cmd.go], runs of the supervisor, the forwarding goroutine. *)

From Stdlib Require Import ZArith List String Ascii Strings.Byte Bool Lia.
From stdpp Require Import base option gmap.
Import ListNotations.

Local Open Scope Z_scope.

(** ** Go's [strings] package *)

Module GoStrings.

(** The line feed, ["\n"] in the Go source. *)
Definition nl : string := String (ascii_of_nat 10) EmptyString.

(** [strings.HasPrefix(s, prefix)]. *)
Fixpoint HasPrefix (s prefix : string) {struct prefix} : bool :=
  match prefix, s with
  | EmptyString, _ => true
  | String _ _, EmptyString => false
  | String p prefix', String a s' => Ascii.eqb a p && HasPrefix s' prefix'
  end.

(** [strings.Contains(s, substr)]: [substr] starts at some index of [s]. *)
Fixpoint Contains (s substr : string) : bool :=
  HasPrefix s substr ||
  match s with
  | EmptyString => false
  | String _ s' => Contains s' substr
  end.

(** [strings.Replace(s, old, new, n)] for a non-empty [old]: the first
    [n] non-overlapping instances of [old], found from the left, are
    replaced by [new]; a negative [n] sets no limit.  [skip] counts the
    bytes of a matched [old] that are still to be passed over. *)
Fixpoint ReplaceFrom (old new : string) (n : Z) (skip : nat) (s : string)
  : string :=
  match s with
  | EmptyString => EmptyString
  | String a s' =>
      match skip with
      | S k => ReplaceFrom old new n k s'
      | O =>
          if n =? 0 then s
          else if HasPrefix s old
               then (new ++ ReplaceFrom old new (n - 1)
                               (Nat.pred (String.length old)) s')%string
               else String a (ReplaceFrom old new n 0 s')
      end
  end.

Definition Replace (s old new : string) (n : Z) : string :=
  if String.eqb old new then s else ReplaceFrom old new n 0 s.

(** [strings.Split(s, sep)] for a non-empty [sep]: the pieces of [s]
    between the non-overlapping instances of [sep], found from the left.
    [SplitFrom] returns the piece being read and the pieces after it. *)
Fixpoint SplitFrom (sep : string) (skip : nat) (s : string)
  : string * list string :=
  match s with
  | EmptyString => (EmptyString, [])
  | String a s' =>
      match skip with
      | S k => SplitFrom sep k s'
      | O =>
          if HasPrefix s sep
          then let (p, ps) :=
                 SplitFrom sep (Nat.pred (String.length sep)) s' in
               (EmptyString, p :: ps)
          else let (p, ps) := SplitFrom sep 0 s' in (String a p, ps)
      end
  end.

Definition Split (s sep : string) : list string :=
  let (p, ps) := SplitFrom sep 0 s in p :: ps.

(** [strings.Count(s, "\n")], for stating how many pieces [Split] makes. *)
Fixpoint CountByte (b : ascii) (s : string) : nat :=
  match s with
  | EmptyString => O
  | String a s' => (if Ascii.eqb a b then 1 else 0) + CountByte b s'
  end%nat.

End GoStrings.

(** ** Go values shared by all the snapshots *)

(** The [error] values the program meets: [errors.New], a failed system
    call, and the [*exec.ExitError] of a child that exited with a status. *)
Inductive error : Type :=
| errors_New (msg : string)
| Errno (code : Z)
| ExitError (status : Z).

(** [err != nil]. *)
Definition notnil (err : option error) : bool :=
  match err with Some _ => true | None => false end.

(** ** Channels of type [chan struct{}]

    Nothing is ever sent on them: a channel is open or closed.  A channel
    value is [None] (the nil channel) or the address of a channel. *)

Module Chan.

Inductive state := Open | Closed.

Definition chan : Type := option nat.
Abbreviation heap := (gmap nat state).

(** [make(chan struct{})]: a channel at an address not in use. *)
Definition make (h : heap) : nat * heap :=
  let a := fresh (dom h) in (a, <[a := Open]> h).

(** [close(c)]: [None] is Go's panic, on a nil channel and on a closed
    one. *)
Definition close (h : heap) (c : chan) : option heap :=
  match c with
  | None => None
  | Some a =>
      match h !! a with
      | Some Open => Some (<[a := Closed]> h)
      | _ => None
      end
  end.

(** A receive [<-c] proceeds when the channel is closed. *)
Definition ready (h : heap) (c : chan) : bool :=
  match c with
  | Some a => match h !! a with Some Closed => true | _ => false end
  | None => false
  end.

End Chan.

(** ** The [watchFor] writer *)

(** [io.Writer]: [Write(p)] returns the number of bytes written and an
    error; the destination's state is passed along. *)
Class Writer (W : Type) := write : W -> list byte -> W * (Z * option error).

(** [ioutil.Discard]: every write succeeds and does nothing. *)
Inductive discard : Type := Discard.

#[export] Instance discard_Writer : Writer discard :=
  fun w p => (w, (Z.of_nat (length p), None)).

(** An [*os.File] such as [os.Stderr], by what was written to it; writing
    to a closed file fails with [os.ErrClosed]. *)
Record File : Type := mkFile { contents : list byte; closed : bool }.

Definition ErrClosed : error := errors_New "file already closed".

#[export] Instance File_Writer : Writer File :=
  fun f p =>
    if closed f then (f, (0, Some ErrClosed))
    else (mkFile (contents f ++ p) false, (Z.of_nat (length p), None)).

Module Watch.

Import GoStrings.

Record watchFor (W : Type) : Type := mk {
  base : W;
  buf : list byte;
  sentinel : string;
  c : Chan.chan;
  done : bool
}.
Arguments mk {W}.
Arguments base {W}.
Arguments buf {W}.
Arguments sentinel {W}.
Arguments c {W}.
Arguments done {W}.

Section Method.
Context {W : Type} `{Writer W}.

(** The method [Write] of [watchFor].  The result is [None] when the call panics;
    otherwise the watcher, the channels, and the returned [(n, err)].
    [bytes.Buffer.Write] returns [len(data)] and a nil error. *)
Definition Write (r : watchFor W) (data : list byte) (h : Chan.heap)
  : option (watchFor W * Chan.heap * (Z * option error)) :=
  let '(b, (n, err)) := write (base r) data in
  let r := mk b (buf r) (sentinel r) (c r) (done r) in
  if done r || notnil err then Some (r, h, (n, err))
  else
    let r := mk (base r) (buf r ++ data) (sentinel r) (c r) (done r) in
    let ret := (Z.of_nat (length data), None) in
    if Contains (string_of_list_byte (buf r)) (sentinel r)
    then match Chan.close h (c r) with
         | Some h' =>
             Some (mk (base r) (buf r) (sentinel r) (c r) true, h', ret)
         | None => None
         end
    else Some (r, h, ret).

(** Successive calls of a [Write] method [wr], one per chunk, as made
    by whoever holds the writer (for a child's standard error, the
    copying goroutine of [os/exec]).  Beside the final state, each call
    is marked with whether the channel went from open to closed
    during it. *)
Fixpoint calls
  (wr : watchFor W -> list byte -> Chan.heap ->
        option (watchFor W * Chan.heap * (Z * option error)))
  (r : watchFor W) (h : Chan.heap) (chunks : list (list byte))
  : option (watchFor W * Chan.heap * list bool) :=
  match chunks with
  | [] => Some (r, h, [])
  | data :: rest =>
      match wr r data h with
      | None => None
      | Some (r', h', _) =>
          match calls wr r' h' rest with
          | None => None
          | Some (r'', h'', fired) =>
              Some (r'', h'',
                    (negb (Chan.ready h (c r)) && Chan.ready h' (c r))
                      :: fired)
          end
      end
  end.

Definition feed := calls Write.

End Method.

End Watch.

(** ** System calls and the program monad *)

Module Proc.

Inductive Signal := SIGHUP | SIGINT | SIGTERM.

(** [syscall.SysProcAttr], the two fields the program sets. *)
Record SysProcAttr : Type := mkAttr { Setpgid : bool; Pgid : Z }.

(** The writers the program names. *)
Inductive Dest := ioutil_Discard | os_Stdin | os_Stdout | os_Stderr.

(** What a standard stream of a command is set to: nil, a file of the
    supervisor, or a [watchFor]. *)
Inductive Stream :=
| Nil
| Std (d : Dest)
| Watching (w : Watch.watchFor Dest).

(** [exec.Cmd]; [Process] is set once the command is started. *)
Record Cmd : Type := mkCmd {
  Args : list string;
  Attr : option SysProcAttr;
  Env : option (list string);
  Stdin : Stream;
  Stdout : Stream;
  Stderr : Stream;
  Process : option Z
}.

Definition exec_Command (name : string) (arg : list string) : Cmd :=
  mkCmd (name :: arg) None None Nil Nil Nil None.

(** The calls that leave the program. *)
Inductive Call : Type :=
| syscall_Setpgid (pid pgid : Z)
| syscall_Getpgid (pid : Z)
| syscall_Kill (pid : Z) (sig : Signal)
| os_FindProcess (pid : Z)
| go_forward (pgroup : Z)
| signal_Notify (sigs : list Signal)
| make_chan
| chan_recv (a : nat)
| os_Environ
| cmd_Start (c : Cmd)
| cmd_Wait (c : Cmd)
| cmd_Run (c : Cmd)
| cmd_CombinedOutput (c : Cmd)
| log_Print (format : string) (v : error).

(** What each call returns. *)
Definition resp (c : Call) : Type :=
  match c with
  | syscall_Setpgid _ _ => option error
  | syscall_Getpgid _ => (Z * option error)%type
  | syscall_Kill _ _ => option error
  | os_FindProcess _ => option error
  | go_forward _ => unit
  | signal_Notify _ => unit
  | make_chan => nat
  | chan_recv _ => unit
  | os_Environ => list string
  | cmd_Start _ => (Z + error)%type
  | cmd_Wait _ => option error
  | cmd_Run _ => option error
  | cmd_CombinedOutput _ => (list byte * option error)%type
  | log_Print _ _ => unit
  end.

(** A program: it returns, makes a call and goes on with the answer,
    leaves through [os.Exit], panics, or blocks for ever. *)
Inductive Prog (R : Type) : Type :=
| Ret (r : R)
| Vis (c : Call) (k : resp c -> Prog R)
| Exit (code : Z)
| Panic (msg : string)
| Hang.
Arguments Ret {R}.
Arguments Vis {R}.
Arguments Exit {R}.
Arguments Panic {R}.
Arguments Hang {R}.

Fixpoint bind {A B : Type} (p : Prog A) (f : A -> Prog B) : Prog B :=
  match p with
  | Ret a => f a
  | Vis c k => Vis c (fun x => bind (k x) f)
  | Exit n => Exit n
  | Panic m => Panic m
  | Hang => Hang
  end.

Definition call (c : Call) : Prog (resp c) := Vis c Ret.

(** [log.Fatalf] and [log.Fatal]: print, then [os.Exit(1)]. *)
Definition log_Fatalf {R : Type} (format : string) (v : error) : Prog R :=
  Vis (log_Print format v) (fun _ => Exit 1).

(** How a run ends. *)
Inductive Outcome (R : Type) : Type :=
| Returned (r : R)
| Exited (code : Z)
| Panicked (msg : string)
| Blocked.
Arguments Returned {R}.
Arguments Exited {R}.
Arguments Panicked {R}.
Arguments Blocked {R}.

(** A call with its answer, or a call that never returned. *)
Inductive Event : Type :=
| Ev (c : Call) (r : resp c)
| Pending (c : Call).

(** The world outside the program: it answers a call or lets it block. *)
Definition Handler (S : Type) : Type :=
  forall c : Call, S -> option (resp c * S).

Fixpoint exec {S R : Type} (h : Handler S) (p : Prog R) (st : S)
  : list Event * Outcome R * S :=
  match p with
  | Ret r => ([], Returned r, st)
  | Vis c k =>
      match h c st with
      | None => ([Pending c], Blocked, st)
      | Some (x, st') =>
          let '(tr, o, st'') := exec h (k x) st' in (Ev c x :: tr, o, st'')
      end
  | Exit n => ([], Exited n, st)
  | Panic m => ([], Panicked m, st)
  | Hang => ([], Blocked, st)
  end.

(** The exit status of the process: 0 when [main] returns, the argument
    of [os.Exit], 2 after a panic. *)
Definition exit_status {R : Type} (o : Outcome R) : option Z :=
  match o with
  | Returned _ => Some 0
  | Exited n => Some n
  | Panicked _ => Some 2
  | Blocked => None
  end.

(** Readings of a trace. *)
Definition call_of (e : Event) : Call :=
  match e with Ev c _ => c | Pending c => c end.

Definition returned (e : Event) : bool :=
  match e with Ev _ _ => true | Pending _ => false end.

Definition kill_of (e : Event) : option (Z * Signal * option (option error)) :=
  match e with
  | Ev (syscall_Kill p s) r => Some (p, s, Some r)
  | Pending (syscall_Kill p s) => Some (p, s, None)
  | _ => None
  end.

Definition run_of (e : Event) : option (Cmd * option error) :=
  match e with
  | Ev (cmd_Run c) r => Some (c, r)
  | _ => None
  end.

Definition started_of (e : Event) : option Cmd :=
  match e with
  | Ev (cmd_Start c) _ => Some c
  | Pending (cmd_Start c) => Some c
  | _ => None
  end.

Definition environ_of (e : Event) : option (list string) :=
  match e with
  | Ev os_Environ r => Some r
  | _ => None
  end.

Definition output_of (e : Event) : option (Cmd * list byte) :=
  match e with
  | Ev (cmd_CombinedOutput c) r => Some (c, fst r)
  | _ => None
  end.

Definition wait_of (e : Event) : option (Cmd * option (option error)) :=
  match e with
  | Ev (cmd_Wait c) r => Some (c, Some r)
  | Pending (cmd_Wait c) => Some (c, None)
  | _ => None
  end.

End Proc.

Declare Scope prog_scope.
Delimit Scope prog_scope with prog.
Notation "x <- p ;; k" := (Proc.bind p (fun x => k))
  (at level 100, p at next level, right associativity) : prog_scope.
Notation "p ;;; k" := (Proc.bind p (fun _ => k))
  (at level 100, right associativity) : prog_scope.

(** ** The supervisor: [Emulator] and [main] *)

Module Supervisor.

Import GoStrings Proc.
Local Open Scope prog_scope.
Local Open Scope string_scope.

Record Emulator : Type := mkEmulator {
  cmd : option Cmd;
  ready : Chan.chan;
  Command : list string;
  EnvCommand : list string;
  ReadySentinel : string
}.

(** The loop body of [Env]: every ["export "] of a line is replaced by
    the empty string, over the lines [strings.Split] returns. *)
Definition env_of_output (out : list byte) : list string :=
  map (fun v => Replace v "export " EmptyString (-1))
      (Split (string_of_list_byte out) nl).

Definition check (err : option error) (format : string) : Prog unit :=
  match err with
  | Some e => log_Fatalf format e
  | None => Ret tt
  end.

Section Process.
(** [os.Getpid()], the flag [-v] and [flag.Args()]. *)
Variable pid : Z.
Variable verbose : bool.

Definition sysprocattr : SysProcAttr := mkAttr true pid.

Definition Start (e : Emulator) : Prog (Emulator * option error) :=
  match ready e with
  | Some _ => Ret (e, Some (errors_New "already started"))
  | None =>
      a <- call make_chan ;;
      let e := mkEmulator (cmd e) (Some a) (Command e) (EnvCommand e)
                 (ReadySentinel e) in
      match Command e with
      | [] => Panic "index out of range"
      | name :: arg =>
          let c := exec_Command name arg in
          let c := mkCmd (Args c) (Some sysprocattr) (Env c) (Stdin c)
                     (Stdout c) (Stderr c) (Process c) in
          let out := if verbose then os_Stderr else ioutil_Discard in
          let w := Watch.mk out [] (ReadySentinel e) (ready e) false in
          let c := mkCmd (Args c) (Attr c) (Env c) (Stdin c) (Stdout c)
                     (Watching w) (Process c) in
          let c := if verbose
                   then mkCmd (Args c) (Attr c) (Env c) (Stdin c)
                          (Std os_Stdout) (Stderr c) (Process c)
                   else c in
          r <- call (cmd_Start c) ;;
          match r with
          | inl p =>
              let c := mkCmd (Args c) (Attr c) (Env c) (Stdin c)
                         (Stdout c) (Stderr c) (Some p) in
              Ret (mkEmulator (Some c) (ready e) (Command e)
                     (EnvCommand e) (ReadySentinel e), None)
          | inr err =>
              Ret (mkEmulator (Some c) (ready e) (Command e)
                     (EnvCommand e) (ReadySentinel e), Some err)
          end
      end
  end.

(** [<-e.ready]; a receive from the nil channel blocks for ever. *)
Definition WaitReady (e : Emulator) : Prog unit :=
  match ready e with
  | Some a => call (chan_recv a)
  | None => Hang
  end.

Definition Stop (e : Emulator) : Prog (option error) :=
  err <- call (syscall_Kill (- pid) SIGTERM) ;;
  match err with
  | Some _ => Ret err
  | None =>
      match cmd e with
      | None => Panic "nil pointer dereference"
      | Some c => call (cmd_Wait c) ;;; Ret None
      end
  end.

Definition Env (e : Emulator) : Prog (list string) :=
  match EnvCommand e with
  | [] => Panic "index out of range"
  | name :: arg =>
      r <- call (cmd_CombinedOutput (exec_Command name arg)) ;;
      match snd r with
      | Some err => log_Fatalf "could not get env: %v" err
      | None => Ret (env_of_output (fst r))
      end
  end.

Definition forwardSignals : Prog unit :=
  err <- call (os_FindProcess (- pid)) ;;
  check err "Could not find proc 0: %v" ;;;
  call (go_forward (- pid)) ;;;
  call (signal_Notify [SIGINT; SIGTERM; SIGHUP]).

Definition datastore0 : Emulator :=
  mkEmulator None None
    ["gcloud"; "-q"; "beta"; "emulators"; "pubsub"; "start"]
    ["gcloud"; "-q"; "beta"; "emulators"; "pubsub"; "env-init"]
    "Server started, listening".

Definition pubsub0 : Emulator :=
  mkEmulator None None
    ["gcloud"; "-q"; "beta"; "emulators"; "datastore"; "start";
     "--no-legacy"]
    ["gcloud"; "-q"; "beta"; "emulators"; "datastore"; "env-init"]
    "is now running".

Definition main (args : list string) : Prog unit :=
  err <- call (syscall_Setpgid pid pid) ;;
  check err "setpgid: %v" ;;;
  forwardSignals ;;;
  r <- Start datastore0 ;;
  let datastore := fst r in
  check (snd r) "Could not start datastore: %v" ;;;
  r <- Start pubsub0 ;;
  let pubsub := fst r in
  check (snd r) "Could not start pubsub: %v" ;;;
  WaitReady datastore ;;;
  WaitReady pubsub ;;;
  env <- call os_Environ ;;
  d <- Env datastore ;;
  let env := (env ++ d)%list in
  p <- Env pubsub ;;
  let env := (env ++ p)%list in
  match args with
  | [] => Panic "index out of range"
  | name :: arg =>
      let c := exec_Command name arg in
      let c := mkCmd (Args c) (Some sysprocattr) (Some env)
                 (Std os_Stdin) (Std os_Stdout) (Std os_Stderr)
                 (Process c) in
      cmdErr <- call (cmd_Run c) ;;
      err <- Stop datastore ;;
      check err "Could not stop datastore: %v" ;;;
      err <- Stop pubsub ;;
      check err "Could not stop pubsub: %v" ;;;
      match cmdErr with
      | Some e => log_Fatalf "%v" e
      | None => Ret tt
      end
  end.

End Process.

End Supervisor.

(** ** The snapshot with one type per emulator

    [PubSub] and [Datastore] have the same methods up to the literals
    (command line, sentinel, error text); the kind picks the literals. *)

Module PubSubVariant.

Import GoStrings Proc.
Local Open Scope prog_scope.
Local Open Scope string_scope.

Inductive Kind := PubSub | Datastore.

Record Job : Type := mkJob { cmd : option Cmd; ready : Chan.chan }.

Definition start_line (k : Kind) : list string :=
  match k with
  | PubSub => ["gcloud"; "-q"; "beta"; "emulators"; "pubsub"; "start"]
  | Datastore => ["gcloud"; "-q"; "beta"; "emulators"; "datastore"; "start";
                  "--no-legacy"]
  end.

Definition env_line (k : Kind) : list string :=
  match k with
  | PubSub => ["gcloud"; "beta"; "emulators"; "pubsub"; "env-init"]
  | Datastore => ["gcloud"; "beta"; "emulators"; "datastore"; "env-init"]
  end.

Definition sentinel_of (k : Kind) : string :=
  match k with
  | PubSub => "Server started, listening"
  | Datastore => "is now running"
  end.

Definition already_started (k : Kind) : error :=
  match k with
  | PubSub => errors_New "pubsub: already started"
  | Datastore => errors_New "datastore: already started"
  end.

Section Process.
Variable verbose : bool.

Definition Start (k : Kind) (j : Job) : Prog (Job * option error) :=
  match ready j with
  | Some _ => Ret (j, Some (already_started k))
  | None =>
      a <- call make_chan ;;
      let out := if verbose then os_Stderr else ioutil_Discard in
      let w := Watch.mk out [] (sentinel_of k) (Some a) false in
      let c := mkCmd (start_line k) (Some (mkAttr true 0)) None Nil
                 (if verbose then Std os_Stdout else Nil) (Watching w)
                 None in
      r <- call (cmd_Start c) ;;
      match r with
      | inl p =>
          Ret (mkJob (Some (mkCmd (Args c) (Attr c) (Env c) (Stdin c)
                              (Stdout c) (Stderr c) (Some p)))
                 (Some a), None)
      | inr err => Ret (mkJob (Some c) (Some a), Some err)
      end
  end.

Definition Stop (j : Job) : Prog (option error) :=
  match cmd j with
  | None => Panic "nil pointer dereference"
  | Some c =>
      match Process c with
      | None => Panic "nil pointer dereference"
      | Some p =>
          r <- call (syscall_Getpgid p) ;;
          match snd r with
          | Some err => Ret (Some err)
          | None =>
              err <- call (syscall_Kill (- fst r) SIGTERM) ;;
              match err with
              | Some _ => Ret err
              | None => call (cmd_Wait c) ;;; Ret None
              end
          end
      end
  end.

Definition Env (k : Kind) (j : Job) : Prog (list string) :=
  match env_line k with
  | [] => Panic "index out of range"
  | name :: arg =>
      r <- call (cmd_CombinedOutput (exec_Command name arg)) ;;
      match snd r with
      | Some err => log_Fatalf "could not get env: %v" err
      | None => Ret (Supervisor.env_of_output (fst r))
      end
  end.

(** [<-j.ready]. *)
Definition WaitReady (j : Job) : Prog unit :=
  match ready j with
  | Some a => call (chan_recv a)
  | None => Hang
  end.

(** [main] of this snapshot: no process group of its own, no signal
    forwarding; the datastore emulator is started first. *)
Definition main (args : list string) : Prog unit :=
  r <- Start Datastore (mkJob None None) ;;
  let datastore := fst r in
  Supervisor.check (snd r) "Could not start datastore: %v" ;;;
  r <- Start PubSub (mkJob None None) ;;
  let pubsub := fst r in
  Supervisor.check (snd r) "Could not start pubsub: %v" ;;;
  WaitReady datastore ;;;
  WaitReady pubsub ;;;
  env <- call os_Environ ;;
  d <- Env Datastore datastore ;;
  let env := (env ++ d)%list in
  p <- Env PubSub pubsub ;;
  let env := (env ++ p)%list in
  match args with
  | [] => Panic "index out of range"
  | name :: arg =>
      let c := exec_Command name arg in
      let c := mkCmd (Args c) (Attr c) (Some env)
                 (Std os_Stdin) (Std os_Stdout) (Std os_Stderr)
                 (Process c) in
      cmdErr <- call (cmd_Run c) ;;
      err <- Stop datastore ;;
      Supervisor.check err "Could not stop datastore: %v" ;;;
      err <- Stop pubsub ;;
      Supervisor.check err "Could not stop pubsub: %v" ;;;
      match cmdErr with
      | Some e => log_Fatalf "%v" e
      | None => Ret tt
      end
  end.

End Process.

End PubSubVariant.

(** ** The oldest snapshot, [cmd.go] *)

Module CmdGo.

Import GoStrings Proc Watch.

Section Method.
Context {W : Type} `{Writer W}.

(** [Write] as this snapshot has it: the two early returns are apart. *)
Definition Write (r : watchFor W) (data : list byte) (h : Chan.heap)
  : option (watchFor W * Chan.heap * (Z * option error)) :=
  let '(b, (n, err)) := write (base r) data in
  let r := mk b (buf r) (sentinel r) (c r) (done r) in
  if notnil err then Some (r, h, (n, err))
  else if done r then Some (r, h, (n, err))
  else
    let r := mk (base r) (buf r ++ data) (sentinel r) (c r) (done r) in
    let ret := (Z.of_nat (length data), None) in
    if Contains (string_of_list_byte (buf r)) (sentinel r)
    then match Chan.close h (c r) with
         | Some h' =>
             Some (mk (base r) (buf r) (sentinel r) (c r) true, h', ret)
         | None => None
         end
    else Some (r, h, ret).
End Method.

(** The goroutine of [main] that launches the emulator.  [start] is the
    result of [cmd.Start()]; [cmd.Wait()] returns once the child has
    exited and all it wrote to its standard error, [chunks], has gone
    through the watcher; then the goroutine closes the channel. *)
Definition launcher (stderr : File) (h : Chan.heap) (datastoreRunning : nat)
  (start : option error) (chunks : list (list byte))
  : Outcome (File * Chan.heap) :=
  let w := mk stderr [] "is now running"%string (Some datastoreRunning)
             false in
  match start with
  | Some _ => Exited 1
  | None =>
      match calls Write w h chunks with
      | None => Panicked "close of closed channel"
      | Some (w', h', _) =>
          match Chan.close h' (Some datastoreRunning) with
          | None => Panicked "close of closed channel"
          | Some h'' => Returned (base w', h'')
          end
      end
  end.

(** [main] up to the receive: the channel is made, the goroutine runs. *)
Definition launch (stderr : File) (h : Chan.heap) (start : option error)
  (chunks : list (list byte)) : Outcome (File * Chan.heap) :=
  let (a, h') := Chan.make h in launcher stderr h' a start chunks.

(** The environment [main] gives the target: the helper's lines, then
    [os.Environ()]. *)
Definition target_env (out : list byte) (environ : list string)
  : list string :=
  Supervisor.env_of_output out ++ environ.

(** [main] after the receive [<-datastoreRunning]; [argv] is [os.Args].
    The emulator is not stopped anywhere in this snapshot. *)
Definition main_rest (argv : list string) : Prog unit :=
  (r <- call (cmd_CombinedOutput
               (exec_Command "gcloud"
                  ["beta"; "emulators"; "datastore"; "env-init"]%string)) ;;
   match snd r with
   | Some err => log_Fatalf "could not get env: %v" err
   | None =>
       environ <- call os_Environ ;;
       let env := target_env (fst r) environ in
       match argv with
       | _ :: name :: arg =>
           let c := exec_Command name arg in
           let c := mkCmd (Args c) (Attr c) (Some env) (Stdin c)
                      (Std os_Stdout) (Std os_Stderr) (Process c) in
           err <- call (cmd_Run c) ;;
           match err with
           | Some e =>
               Vis (log_Print "exit code from subprocess: %q" e)
                 (fun _ => Exit 1)
           | None => Ret tt
           end
       | _ => Panic "index out of range"
       end
   end)%prog.

End CmdGo.

(** ** The goroutine of [forwardSignals]

    [sigch] has room for one signal.  [signal.Notify] sends without
    blocking: a signal that finds the channel full is dropped.  The
    goroutine receives once, forwards through [pgroup.Signal], which is
    [kill(pgroup.Pid, sig)], and returns. *)

Module Signals.

Import Proc.

Record state : Type := mkState {
  received : list Signal;
  sigch : list Signal;
  waiting : bool;
  sent : list (Z * Signal)
}.

Definition init : state := mkState [] [] true [].

(** A signal reaches the supervisor. *)
Definition deliver (s : Signal) (st : state) : state :=
  mkState (received st ++ [s])
    (if (length (sigch st) <? 1)%nat then sigch st ++ [s] else sigch st)
    (waiting st) (sent st).

(** The goroutine takes its step, when it can. *)
Definition forward (pgroup : Z) (st : state) : option state :=
  if waiting st then
    match sigch st with
    | sig :: rest =>
        Some (mkState (received st) rest false (sent st ++ [(pgroup, sig)]))
    | [] => None
    end
  else None.

Inductive step (pgroup : Z) : state -> state -> Prop :=
| step_deliver (s : Signal) (st : state) : step pgroup st (deliver s st)
| step_forward (st st' : state) :
    forward pgroup st = Some st' -> step pgroup st st'.

Inductive reach (pgroup : Z) (st : state) : state -> Prop :=
| reach_refl : reach pgroup st st
| reach_step (st1 st2 : state) :
    reach pgroup st st1 -> step pgroup st1 st2 -> reach pgroup st st2.

(** A schedule, for running the machine: deliveries and goroutine turns. *)
Inductive action := Deliver (s : Signal) | Turn.

Fixpoint run (pgroup : Z) (acts : list action) (st : state) : state :=
  match acts with
  | [] => st
  | Deliver s :: rest => run pgroup rest (deliver s st)
  | Turn :: rest =>
      match forward pgroup st with
      | Some st' => run pgroup rest st'
      | None => run pgroup rest st
      end
  end.

End Signals.

(** ** Readings of runs, and the vocabulary of the properties *)

Import GoStrings Proc.

Definition bytes (s : string) : list byte := list_byte_of_string s.

Definition nlchar : ascii := ascii_of_nat 10.

(** [s] is a substring of the bytes [b]. *)
Definition occurs (s : string) (b : list byte) : Prop :=
  exists pre suf : string, string_of_list_byte b = (pre ++ s ++ suf)%string.

(** After call number [i] (from 0) the bytes written so far contain [s]. *)
Definition hit (s : string) (chunks : list (list byte)) (i : nat) : Prop :=
  occurs s (concat (firstn (S i) chunks)).

Definition first_hit (s : string) (chunks : list (list byte)) (i : nat)
  : Prop :=
  hit s chunks i /\ forall j, (j < i)%nat -> ~ hit s chunks j.

(** Every write to a destination in a state [good] succeeds and leaves it
    in such a state. *)
Definition accepts_all {W : Type} `{Writer W} (good : W -> Prop) : Prop :=
  forall (w : W) (p : list byte),
    good w -> snd (snd (write w p)) = None /\ good (fst (write w p)).

(** The same three notions as functions, with the bytes [pre] already in
    the buffer. *)
Definition seen (s : string) (pre : list byte) (chunks : list (list byte))
  (i : nat) : bool :=
  Contains (string_of_list_byte (pre ++ concat (firstn (S i) chunks))) s.

Fixpoint fired_at (s : string) (pre : list byte) (chunks : list (list byte))
  : list bool :=
  match chunks with
  | [] => []
  | d :: rest =>
      if Contains (string_of_list_byte (pre ++ d)) s
      then true :: replicate (length rest) false
      else false :: fired_at s (pre ++ d) rest
  end.

Fixpoint any_hit (s : string) (pre : list byte) (chunks : list (list byte))
  : bool :=
  match chunks with
  | [] => false
  | d :: rest =>
      Contains (string_of_list_byte (pre ++ d)) s || any_hit s (pre ++ d) rest
  end.

(** The events after the target command has returned. *)
Fixpoint after_run (tr : list Event) : list Event :=
  match tr with
  | [] => []
  | ev :: rest =>
      match run_of ev with Some _ => rest | None => after_run rest end
  end.

(** The target command and what [cmd.Run()] returned. *)
Definition target_result (tr : list Event) : option (Cmd * option error) :=
  hd_error (omap run_of tr).

(** The errors of the [syscall.Kill] calls, that is of the [Stop] calls. *)
Definition stop_failures (tr : list Event) : list error :=
  omap (fun ev => match kill_of ev with
                  | Some (_, _, Some (Some err)) => Some err
                  | _ => None
                  end) tr.

(** What holds of the forwarding goroutine at every moment: it waits with
    at most the first signal in the channel, or it has forwarded the first
    signal and returned. *)
Definition forward_inv (pgroup : Z) (st : Signals.state) : Prop :=
  (Signals.waiting st = true /\ Signals.sent st = []
   /\ Signals.sigch st = firstn 1 (Signals.received st))
  \/ (Signals.waiting st = false
      /\ exists s rest, Signals.received st = s :: rest
                        /\ Signals.sent st = [(pgroup, s)]).

(** A scripted world to run the programs in: every call returns; the
    target exits with [target_status]; the [Kill] call number
    [failing_kill], if any, fails with ESRCH; a helper prints what
    [helper] gives for its command line. *)
Record World : Type := mkWorld {
  target_status : Z;
  failing_kill : option nat;
  kills : nat;
  helper : list string -> list byte;
  ambient : list string;
  next_pid : Z;
  next_chan : nat
}.

Definition answer : Handler World :=
  fun c w =>
    match c as c0 return option (resp c0 * World) with
    | syscall_Setpgid _ _ => Some (None, w)
    | syscall_Getpgid p => Some ((p, None), w)
    | syscall_Kill _ _ =>
        Some (if bool_decide (failing_kill w = Some (kills w))
              then Some (Errno 3) else None,
              mkWorld (target_status w) (failing_kill w) (S (kills w))
                (helper w) (ambient w) (next_pid w) (next_chan w))
    | os_FindProcess _ => Some (None, w)
    | go_forward _ => Some (tt, w)
    | signal_Notify _ => Some (tt, w)
    | make_chan =>
        Some (next_chan w,
              mkWorld (target_status w) (failing_kill w) (kills w)
                (helper w) (ambient w) (next_pid w) (S (next_chan w)))
    | chan_recv _ => Some (tt, w)
    | os_Environ => Some (ambient w, w)
    | cmd_Start _ =>
        Some (inl (next_pid w),
              mkWorld (target_status w) (failing_kill w) (kills w)
                (helper w) (ambient w) (next_pid w + 1) (next_chan w))
    | cmd_Wait _ => Some (None, w)
    | cmd_Run _ =>
        Some (if target_status w =? 0 then None
              else Some (ExitError (target_status w)), w)
    | cmd_CombinedOutput c => Some ((helper w (Args c), None), w)
    | log_Print _ _ => Some (tt, w)
    end.

Definition helper0 (args : list string) : list byte :=
  if existsb (String.eqb "pubsub") args
  then bytes ("export X=1" ++ nl)%string
  else bytes ("export Y=2" ++ nl)%string.

Definition world0 (status : Z) (failing : option nat) : World :=
  mkWorld status failing 0 helper0 ["HOME=/root"%string] 101 0.


Definition trace_of {S R : Type} (x : list Event * Outcome R * S)
  : list Event := fst (fst x).

Definition outcome_of {S R : Type} (x : list Event * Outcome R * S)
  : Outcome R := snd (fst x).

(** Runs in that world: a target that succeeds, one that exits with
    status 3, and the latter with a first [Kill] that fails. *)
Definition run_env :=
  exec answer (Supervisor.main 100 false ["env"%string]) (world0 0 None).



(** The command [main] runs for the arguments [args] in that world. *)
Definition target_cmd (args : list string) : Cmd :=
  mkCmd args (Some (mkAttr true 100))
    (Some ["HOME=/root"; "X=1"; EmptyString; "Y=2"; EmptyString]%string)
    (Std os_Stdin) (Std os_Stdout) (Std os_Stderr) None.

(** The first emulator, started in that world, and its [Stop]. *)
Definition run_start :=
  exec answer (Supervisor.Start 100 false Supervisor.datastore0)
    (world0 0 None).

Definition started0 : Supervisor.Emulator :=
  match outcome_of run_start with
  | Returned (e, _) => e
  | _ => Supervisor.datastore0
  end.

Definition run_stop :=
  exec answer (Supervisor.Stop 100 started0) (world0 0 None).

Definition heap0 : Chan.heap := {[ 0%nat := Chan.Open ]}.

Definition two_signals : list Signals.action :=
  [Signals.Deliver SIGINT; Signals.Turn; Signals.Deliver SIGTERM;
   Signals.Turn].

Definition ready_in_pieces : list (list byte) :=
  [bytes "boot re"; bytes "ad"; bytes "y."; bytes "more"].

(** The same world, but every [cmd.Start()] fails with ENOENT. *)
Definition answer_spawn_fails : Handler World :=
  fun c w =>
    match c as c0 return option (resp c0 * World) with
    | cmd_Start _ => Some (inr (Errno 2), w)
    | c0 => answer c0 w
    end.

Definition run_start_fails :=
  exec answer_spawn_fails
    (Supervisor.Start 100 false Supervisor.datastore0) (world0 0 None).

Definition failed0 : Supervisor.Emulator :=
  match outcome_of run_start_fails with
  | Returned (e, _) => e
  | _ => Supervisor.datastore0
  end.


Definition run_no_args :=
  exec answer (Supervisor.main 100 false []) (world0 0 None).

Definition run_stop_unstarted :=
  exec answer (Supervisor.Stop 100 Supervisor.datastore0) (world0 0 None).

(** Runs of the older snapshots in that world. *)
Definition run_variant :=
  exec answer (PubSubVariant.main false ["env"%string]) (world0 0 None).

Definition variant_target_cmd : Cmd :=
  mkCmd ["env"%string] None
    (Some ["HOME=/root"; "Y=2"; EmptyString; "X=1"; EmptyString]%string)
    (Std os_Stdin) (Std os_Stdout) (Std os_Stderr) None.

Definition run_cmd_go :=
  exec answer (CmdGo.main_rest ["with_emulators"; "env"]%string)
    (world0 0 None).

Definition cmd_go_target_cmd : Cmd :=
  mkCmd ["env"%string] None
    (Some ["Y=2"; EmptyString; "HOME=/root"]%string)
    Nil (Std os_Stdout) (Std os_Stderr) None.

Definition boot_failed : list (list byte) :=
  [bytes "boot "; bytes "failed"].

(** A world whose ambient environment already names a datastore host,
    and whose helpers print the emulators' own hosts; [cmd.go] and the
    supervisor run in it with the same target. *)
Definition helper_hosts (args : list string) : list byte :=
  if existsb (String.eqb "pubsub") args
  then bytes ("export PUBSUB_EMULATOR_HOST=localhost:8085" ++ nl)%string
  else bytes ("export DATASTORE_EMULATOR_HOST=localhost:8081" ++ nl)%string.

Definition world_hosts : World :=
  mkWorld 0 None 0 helper_hosts
    ["DATASTORE_EMULATOR_HOST=elsewhere:1"; "HOME=/root"]%string 101 0.

Definition run_cmd_go_hosts :=
  exec answer (CmdGo.main_rest ["with_emulators"; "env"]%string) world_hosts.

Definition run_main_hosts :=
  exec answer (Supervisor.main 100 false ["env"%string]) world_hosts.

(** The channel a receive waits on, and the events before the first
    receive. *)
Definition recv_of (e : Event) : option nat :=
  match e with
  | Ev (chan_recv a) _ => Some a
  | Pending (chan_recv a) => Some a
  | _ => None
  end.

Fixpoint before_recv (tr : list Event) : list Event :=
  match tr with
  | [] => []
  | ev :: rest =>
      match recv_of ev with
      | Some _ => []
      | None => ev :: before_recv rest
      end
  end.

Definition made_of (e : Event) : option nat :=
  match e with
  | Ev make_chan a => Some a
  | _ => None
  end.

(** The answers of [cmd.Start()] that are errors. *)
Definition start_failures (tr : list Event) : list error :=
  omap (fun ev => match ev with
                  | Ev (cmd_Start _) (inr err) => Some err
                  | _ => None
                  end) tr.

(** The helper commands that returned an error. *)
Definition helper_failures (tr : list Event) : list error :=
  omap (fun ev => match ev with
                  | Ev (cmd_CombinedOutput _) (_, Some err) => Some err
                  | _ => None
                  end) tr.

(** The watcher a command's standard error is set to, if it is one. *)
Definition watcher_of (c : Cmd) : option (Watch.watchFor Dest) :=
  match Stderr c with
  | Watching w => Some w
  | _ => None
  end.

(** * Properties *)

(** ** Strings *)

Section StringFacts.
#[local] Arguments String.append !s1 s2 : simpl nomatch.
Local Open Scope string_scope.

Lemma string_app_assoc (a b c : string) : (a ++ b) ++ c = a ++ (b ++ c).
Proof. induction a as [|x a IH]; simpl; [reflexivity | f_equal; exact IH]. Qed.

Lemma string_of_list_byte_app (a b : list byte) :
  string_of_list_byte (a ++ b)
  = string_of_list_byte a ++ string_of_list_byte b.
Proof.
  unfold string_of_list_byte.
  induction a as [|x a IH]; simpl; [reflexivity | f_equal; exact IH].
Qed.

Lemma HasPrefix_spec (s p : string) :
  HasPrefix s p = true <-> exists suf, s = p ++ suf.
Proof.
  revert s; induction p as [|x p IH]; intros s; simpl.
  - split; [intros _; now exists s | reflexivity].
  - destruct s as [|a s]; simpl.
    + split; [discriminate | intros [suf E]; discriminate].
    + rewrite andb_true_iff, Ascii.eqb_eq, IH. split.
      * intros [-> [suf ->]]. now exists suf.
      * intros [suf E]. injection E as -> ->.
        split; [reflexivity | now exists suf].
Qed.

Lemma Contains_spec (s sub : string) :
  Contains s sub = true <-> exists pre suf, s = pre ++ sub ++ suf.
Proof.
  induction s as [|a s IH]; simpl; rewrite orb_true_iff.
  - split.
    + intros [P | F]; [| discriminate].
      apply HasPrefix_spec in P as [suf E]. now exists EmptyString, suf.
    + intros [pre [suf E]]. left. destruct pre; [| discriminate].
      apply HasPrefix_spec. now exists suf.
  - rewrite IH. split.
    + intros [P | [pre [suf ->]]].
      * apply HasPrefix_spec in P as [suf E]. now exists EmptyString, suf.
      * now exists (String a pre), suf.
    + intros [pre [suf E]]. destruct pre as [|x pre]; simpl in E.
      * left. apply HasPrefix_spec. now exists suf.
      * right. injection E as -> ->. now exists pre, suf.
Qed.

Lemma Contains_app (s t sub : string) :
  Contains s sub = true -> Contains (s ++ t) sub = true.
Proof.
  rewrite !Contains_spec. intros [pre [suf ->]].
  exists pre, (suf ++ t). now rewrite !string_app_assoc.
Qed.

Lemma ReplaceFrom_negative old new s : forall n m k,
  n < 0 -> m < 0 ->
  ReplaceFrom old new n k s = ReplaceFrom old new m k s.
Proof.
  induction s as [|a s IH]; intros n m k Hn Hm; simpl; [reflexivity |].
  destruct k as [|k]; [| now apply IH].
  destruct (Z.eqb_spec n 0); [lia |]. destruct (Z.eqb_spec m 0); [lia |].
  destruct (HasPrefix (String a s) old).
  - f_equal. apply IH; lia.
  - f_equal. now apply IH.
Qed.

Lemma Replace_export_prefix (s : string) :
  Replace ("export " ++ s) "export " EmptyString (-1)
  = Replace s "export " EmptyString (-1).
Proof.
  unfold Replace. simpl.
  apply ReplaceFrom_negative; lia.
Qed.

Lemma Replace_export_other (a : ascii) (s : string) :
  HasPrefix (String a s) "export " = false ->
  Replace (String a s) "export " EmptyString (-1)
  = String a (Replace s "export " EmptyString (-1)).
Proof.
  intros N. unfold Replace. cbn [String.eqb Ascii.eqb]. simpl String.eqb.
  cbn [ReplaceFrom]. rewrite N. reflexivity.
Qed.

Lemma SplitFrom_nl_cons (a : ascii) (s : string) :
  SplitFrom nl 0 (String a s)
  = if Ascii.eqb a nlchar
    then (EmptyString, Split s nl)
    else (String a (fst (SplitFrom nl 0 s)), snd (SplitFrom nl 0 s)).
Proof.
  unfold Split, nl. fold nlchar.
  cbn [SplitFrom HasPrefix String.length Nat.pred].
  rewrite andb_true_r.
  destruct (Ascii.eqb a nlchar);
    destruct (SplitFrom (String nlchar EmptyString) 0 s); reflexivity.
Qed.

Lemma Split_first_line (l rest : string) :
  CountByte nlchar l = 0%nat ->
  Split (l ++ nl ++ rest) nl = l :: Split rest nl.
Proof.
  change (nl ++ rest) with (String nlchar rest).
  unfold Split at 1. induction l as [|a l IH]; intros N.
  - change (EmptyString ++ String nlchar rest) with (String nlchar rest).
    rewrite SplitFrom_nl_cons. now rewrite Ascii.eqb_refl.
  - simpl in N.
    change (String a l ++ String nlchar rest)
      with (String a (l ++ String nlchar rest)).
    rewrite SplitFrom_nl_cons.
    destruct (Ascii.eqb a nlchar); [discriminate N |].
    specialize (IH N). destruct (SplitFrom nl 0 (l ++ String nlchar rest)).
    simpl. now injection IH as -> ->.
Qed.

Lemma Split_last_line (l : string) :
  CountByte nlchar l = 0%nat -> Split l nl = [l].
Proof.
  unfold Split. induction l as [|a l IH]; intros N; [reflexivity |].
  simpl in N. rewrite SplitFrom_nl_cons.
  destruct (Ascii.eqb a nlchar); [discriminate N |].
  specialize (IH N). destruct (SplitFrom nl 0 l). simpl.
  now injection IH as -> ->.
Qed.

Lemma length_Split_nl (s : string) :
  length (Split s nl) = S (CountByte nlchar s).
Proof.
  unfold Split. induction s as [|a s IH]; [reflexivity |].
  rewrite SplitFrom_nl_cons. simpl CountByte.
  destruct (Ascii.eqb a nlchar).
  - unfold Split. destruct (SplitFrom nl 0 s). simpl in *. now rewrite IH.
  - destruct (SplitFrom nl 0 s). simpl in *. exact IH.
Qed.

End StringFacts.

(** ** [Env]: the helper's output, line by line *)

Lemma Env_returns {S : Type} (h : Handler S) (e : Supervisor.Emulator)
  (name : string) (arg : list string) (out : list byte) (st st1 : S) :
  Supervisor.EnvCommand e = name :: arg ->
  h (cmd_CombinedOutput (exec_Command name arg)) st = Some ((out, None), st1) ->
  exec h (Supervisor.Env e) st
  = ([Ev (cmd_CombinedOutput (exec_Command name arg)) (out, None)],
     Returned (Supervisor.env_of_output out), st1).
Proof.
  intros C A. unfold Supervisor.Env. rewrite C. simpl. rewrite A. reflexivity.
Qed.

Lemma Job_Env_returns {S : Type} (h : Handler S) (k : PubSubVariant.Kind)
  (j : PubSubVariant.Job) (out : list byte) (st st1 : S) :
  h (cmd_CombinedOutput (exec_Command "gcloud" (tl (PubSubVariant.env_line k))))
    st = Some ((out, None), st1) ->
  exec h (PubSubVariant.Env k j) st
  = ([Ev (cmd_CombinedOutput
            (exec_Command "gcloud" (tl (PubSubVariant.env_line k))))
        (out, None)],
     Returned (Supervisor.env_of_output out), st1).
Proof.
  intros A. unfold PubSubVariant.Env. destruct k; simpl in *; rewrite A;
    reflexivity.
Qed.

(** C2, as the code has it.  [Env] returns one element for every line of
    the helper's output, the piece after the last line feed included: an
    output that ends in a line feed gives a last element that is empty,
    and it is kept.  In each line every ["export "] is removed, not the
    leading one alone.  For ["export A=1\nexport B=2\n"] the result is the
    three elements ["A=1"], ["B=2"] and the empty string. *)
Theorem Env_strips_every_export_keeps_every_line :
  (forall (S : Type) (h : Handler S) (e : Supervisor.Emulator) name arg out
          (st st1 : S),
      Supervisor.EnvCommand e = name :: arg ->
      h (cmd_CombinedOutput (exec_Command name arg)) st
      = Some ((out, None), st1) ->
      exec h (Supervisor.Env e) st
      = ([Ev (cmd_CombinedOutput (exec_Command name arg)) (out, None)],
         Returned (Supervisor.env_of_output out), st1))
  /\ (forall l rest : string,
        CountByte nlchar l = 0%nat ->
        Supervisor.env_of_output (bytes (l ++ nl ++ rest))
        = Replace l "export " EmptyString (-1)
            :: Supervisor.env_of_output (bytes rest))
  /\ (forall l : string,
        CountByte nlchar l = 0%nat ->
        Supervisor.env_of_output (bytes l)
        = [Replace l "export " EmptyString (-1)])
  /\ (forall out : list byte,
        length (Supervisor.env_of_output out)
        = S (CountByte nlchar (string_of_list_byte out)))
  /\ (forall s : string,
        Replace ("export " ++ s) "export " EmptyString (-1)
        = Replace s "export " EmptyString (-1))
  /\ (forall (a : ascii) (s : string),
        HasPrefix (String a s) "export " = false ->
        Replace (String a s) "export " EmptyString (-1)
        = String a (Replace s "export " EmptyString (-1)))
  /\ Supervisor.env_of_output
       (bytes ("export A=1" ++ nl ++ "export B=2" ++ nl))
     = ["A=1"; "B=2"; EmptyString]%string
  /\ Supervisor.env_of_output (bytes "export A=export B")
     = ["A=B"%string]
  /\ (forall (S : Type) (h : Handler S) (k : PubSubVariant.Kind)
             (j : PubSubVariant.Job) out (st st1 : S),
        h (cmd_CombinedOutput
             (exec_Command "gcloud" (tl (PubSubVariant.env_line k)))) st
        = Some ((out, None), st1) ->
        exec h (PubSubVariant.Env k j) st
        = ([Ev (cmd_CombinedOutput
                  (exec_Command "gcloud" (tl (PubSubVariant.env_line k))))
              (out, None)],
           Returned (Supervisor.env_of_output out), st1)).
Proof.
  split; [intros; now apply Env_returns |].
  split.
  { intros l rest N. unfold Supervisor.env_of_output, bytes.
    rewrite !string_of_list_byte_of_string, Split_first_line by exact N.
    reflexivity. }
  split.
  { intros l N. unfold Supervisor.env_of_output, bytes.
    rewrite string_of_list_byte_of_string, Split_last_line by exact N.
    reflexivity. }
  split.
  { intros out. unfold Supervisor.env_of_output.
    rewrite length_map. apply length_Split_nl. }
  split; [exact Replace_export_prefix |].
  split; [exact Replace_export_other |].
  split; [vm_compute; reflexivity |].
  split; [vm_compute; reflexivity |].
  intros; now apply Job_Env_returns.
Qed.

Lemma Env_strips_every_export_keeps_every_line_witness :
  exec answer (Supervisor.Env Supervisor.datastore0) (world0 0 None)
  = ([Ev (cmd_CombinedOutput
            (exec_Command "gcloud"
               ["-q"; "beta"; "emulators"; "pubsub"; "env-init"]%string))
        (bytes ("export X=1" ++ nl), None)],
     Returned ["X=1"; EmptyString]%string, world0 0 None)
  /\ Supervisor.env_of_output (bytes ("export A=1" ++ nl ++ "export B=2"))
     = ["A=1"; "B=2"]%string.
Proof.
  split.
  - apply (proj1 Env_strips_every_export_keeps_every_line
             World answer Supervisor.datastore0 "gcloud"%string
             ["-q"; "beta"; "emulators"; "pubsub"; "env-init"]%string
             (bytes ("export X=1" ++ nl)) (world0 0 None) (world0 0 None));
      reflexivity.
  - rewrite (proj1 (proj2 Env_strips_every_export_keeps_every_line)
               "export A=1"%string "export B=2"%string); reflexivity.
Defined.

(** C2 as the specification has it fails twice: the example gives three
    elements, not two, and an ["export "] inside a line is removed too. *)
Lemma Env_keeps_empty_line_and_strips_inner_export :
  Supervisor.env_of_output (bytes ("export A=1" ++ nl ++ "export B=2" ++ nl))
  <> ["A=1"; "B=2"]%string
  /\ Supervisor.env_of_output (bytes "export A=export B")
     <> ["A=export B"%string].
Proof. split; vm_compute; discriminate. Qed.

(** ** The watcher *)

Lemma seen_0 s pre d rest :
  seen s pre (d :: rest) 0 = Contains (string_of_list_byte (pre ++ d)) s.
Proof. unfold seen. simpl. now rewrite app_nil_r. Qed.

Lemma seen_S s pre d rest i :
  seen s pre (d :: rest) (S i) = seen s (pre ++ d) rest i.
Proof. unfold seen. simpl. now rewrite <- app_assoc. Qed.

Lemma seen_hit s chunks i : seen s [] chunks i = true <-> hit s chunks i.
Proof. unfold seen, hit, occurs. simpl. apply Contains_spec. Qed.

Lemma length_fired_at s pre chunks :
  length (fired_at s pre chunks) = length chunks.
Proof.
  revert pre; induction chunks as [|d rest IH]; intros pre; simpl.
  - reflexivity.
  - destruct (Contains _ s); simpl;
      [now rewrite length_replicate | now rewrite IH].
Qed.

Lemma fired_at_lookup s chunks : forall pre i,
  fired_at s pre chunks !! i = Some true
  <-> (i < length chunks)%nat /\ seen s pre chunks i = true
      /\ forall j, (j < i)%nat -> seen s pre chunks j = false.
Proof.
  induction chunks as [|d rest IH]; intros pre i.
  - simpl. split; [discriminate | intros [L _]; inversion L].
  - simpl fired_at. destruct (Contains _ s) eqn:E.
    + destruct i as [|i]; simpl.
      * rewrite seen_0. split; [intros _ | reflexivity].
        split; [lia | split; [exact E | intros j L; inversion L]].
      * split.
        -- intros L. apply lookup_replicate in L as [L _]. discriminate.
        -- intros (_ & _ & L). specialize (L 0%nat ltac:(lia)).
           rewrite seen_0, E in L. discriminate.
    + destruct i as [|i]; simpl.
      * rewrite seen_0, E.
        split; [discriminate | intros (_ & F & _); discriminate].
      * rewrite IH, seen_S. split.
        -- intros (L & S1 & A). split; [lia | split; [exact S1 |]].
           intros [|j] Lj; [now rewrite seen_0 | rewrite seen_S; apply A; lia].
        -- intros (L & S1 & A). split; [lia | split; [exact S1 |]].
           intros j Lj. rewrite <- seen_S with (d := d). apply A. lia.
Qed.

Lemma any_hit_spec s chunks : forall pre,
  any_hit s pre chunks = true
  <-> exists i, (i < length chunks)%nat /\ seen s pre chunks i = true.
Proof.
  induction chunks as [|d rest IH]; intros pre; simpl.
  - split; [discriminate | intros (i & L & _); inversion L].
  - rewrite orb_true_iff, IH. split.
    + intros [E | (i & L & E)].
      * exists 0%nat. rewrite seen_0. split; [lia | exact E].
      * exists (S i). rewrite seen_S. split; [lia | exact E].
    + intros ([|i] & L & E).
      * left. now rewrite seen_0 in E.
      * right. exists i. rewrite seen_S in E. split; [lia | exact E].
Qed.

Lemma count_fired_at s chunks : forall pre,
  count_occ Bool.bool_dec (fired_at s pre chunks) true
  = if any_hit s pre chunks then 1%nat else 0%nat.
Proof.
  induction chunks as [|d rest IH]; intros pre; simpl.
  - reflexivity.
  - destruct (Contains _ s); simpl.
    + f_equal. apply count_occ_not_In. intros I.
      apply list_elem_of_In, elem_of_replicate_inv in I. discriminate.
    + apply IH.
Qed.

Lemma File_accepts_all : accepts_all (fun f : File => closed f = false).
Proof.
  intros f p C. unfold write, File_Writer. rewrite C. simpl. auto.
Qed.

Lemma discard_accepts_all : accepts_all (fun _ : discard => True).
Proof. intros w p _. split; [reflexivity | exact I]. Qed.

Section WatcherFacts.
Context {W : Type} `{Writer W}.
Import Watch.

Lemma Write_done (r : watchFor W) data h :
  done r = true ->
  Write r data h
  = Some (mk (fst (write (base r) data)) (buf r) (sentinel r) (c r) true,
          h, snd (write (base r) data)).
Proof.
  intros D. unfold Write. destruct (write (base r) data) as [b [n err]].
  simpl. rewrite D. reflexivity.
Qed.

Lemma Write_open (r : watchFor W) data h a :
  snd (snd (write (base r) data)) = None ->
  done r = false -> c r = Some a -> h !! a = Some Chan.Open ->
  Write r data h
  = let b := fst (write (base r) data) in
    let ret := (Z.of_nat (length data), None) in
    if Contains (string_of_list_byte (buf r ++ data)) (sentinel r)
    then Some (mk b (buf r ++ data) (sentinel r) (c r) true,
               <[a := Chan.Closed]> h, ret)
    else Some (mk b (buf r ++ data) (sentinel r) (c r) false, h, ret).
Proof.
  intros E D C O. unfold Write.
  destruct (write (base r) data) as [b [n err]]. simpl in *. subst err.
  rewrite D. simpl. destruct (Contains _ _); [| reflexivity].
  rewrite C. simpl. rewrite O. reflexivity.
Qed.

Lemma feed_done chunks : forall (r : watchFor W) h,
  done r = true ->
  exists r', feed r h chunks = Some (r', h, replicate (length chunks) false)
             /\ done r' = true /\ buf r' = buf r
             /\ base r'
                = fold_left (fun b d => fst (write b d)) chunks (base r).
Proof.
  induction chunks as [|d rest IH]; intros r h D.
  - exists r. simpl. auto.
  - unfold feed in *. simpl. rewrite (Write_done r d h D).
    destruct (IH (mk (fst (write (base r) d)) (buf r) (sentinel r) (c r) true)
                h eq_refl) as (r' & -> & D' & B' & Ba).
    exists r'. simpl. rewrite andb_negb_l. auto.
Qed.

Lemma feed_open good (ok : accepts_all good) chunks :
  forall (r : watchFor W) h a,
  good (base r) ->
  done r = false -> c r = Some a -> h !! a = Some Chan.Open ->
  exists r' h',
    feed r h chunks = Some (r', h', fired_at (sentinel r) (buf r) chunks)
    /\ if any_hit (sentinel r) (buf r) chunks
       then h' = <[a := Chan.Closed]> h /\ done r' = true
       else h' = h /\ done r' = false /\ buf r' = buf r ++ concat chunks.
Proof.
  induction chunks as [|d rest IH]; intros r h a G D C O.
  - exists r, h. simpl. rewrite app_nil_r. auto.
  - unfold feed in *. simpl. destruct (ok _ d G) as [E0 G'].
    rewrite (Write_open r d h a E0 D C O). simpl.
    destruct (Contains _ (sentinel r)) eqn:E; simpl.
    + edestruct (feed_done rest) as (r' & F & D' & _);
        [| unfold feed in F; rewrite F].
      * reflexivity.
      * exists r', (<[a := Chan.Closed]> h). rewrite C. simpl.
        rewrite O, lookup_insert_eq. simpl. auto.
    + edestruct (IH (mk (fst (write (base r) d)) (buf r ++ d) (sentinel r)
                       (c r) false) h a) as (r' & h' & F & P);
        [exact G' | reflexivity | exact C | exact O |].
      simpl in F, P. rewrite F. exists r', h'. rewrite C. simpl. rewrite O.
      simpl. split; [reflexivity |].
      destruct (any_hit _ _ rest); [exact P |].
      destruct P as (-> & D' & ->). rewrite <- app_assoc. auto.
Qed.

Lemma calls_ext
  (f g : watchFor W -> list byte -> Chan.heap ->
         option (watchFor W * Chan.heap * (Z * option error))) :
  (forall r d h, f r d h = g r d h) ->
  forall chunks r h, calls f r h chunks = calls g r h chunks.
Proof.
  intros E chunks; induction chunks as [|d rest IH]; intros r h; simpl.
  - reflexivity.
  - rewrite E. destruct (g r d h) as [[[r' h'] ret] |]; [| reflexivity].
    now rewrite IH.
Qed.

(** The two snapshots of [Write] are the same function. *)
Lemma CmdGo_Write_same (r : watchFor W) d h :
  CmdGo.Write r d h = Write r d h.
Proof.
  unfold CmdGo.Write, Write.
  destruct (write (base r) d) as [b [n [e |]]]; simpl;
    destruct (done r); reflexivity.
Qed.

(** C1.  A fresh watcher for [s] on an open channel is given the chunks
    one call after the other, and the destination takes every write.
    Then no call panics, and call [i] fulfils the signal exactly when [i]
    is the first call after which the bytes written so far contain [s]:
    so the signal is fulfilled once if some prefix contains [s], and the
    channel stays as it was if none does. *)
Theorem watcher_signals_once_at_first_hit
  (good : W -> Prop) (b0 : W) (s : string) (a : nat) (h : Chan.heap)
  (chunks : list (list byte)) :
  accepts_all good -> good b0 -> h !! a = Some Chan.Open ->
  exists r' h' fired,
    feed (mk b0 [] s (Some a) false) h chunks = Some (r', h', fired)
    /\ length fired = length chunks
    /\ (forall i, fired !! i = Some true
                  <-> (i < length chunks)%nat /\ first_hit s chunks i)
    /\ ((exists i, (i < length chunks)%nat /\ hit s chunks i) ->
        count_occ Bool.bool_dec fired true = 1%nat
        /\ h' !! a = Some Chan.Closed /\ done r' = true)
    /\ ((forall i, (i < length chunks)%nat -> ~ hit s chunks i) ->
        count_occ Bool.bool_dec fired true = 0%nat
        /\ h' = h /\ done r' = false /\ buf r' = concat chunks).
Proof.
  intros ok G O.
  destruct (feed_open good ok chunks (mk b0 [] s (Some a) false) h a)
    as (r' & h' & F & P); [exact G | reflexivity | reflexivity | exact O |].
  simpl in F, P. exists r', h', (fired_at s [] chunks).
  split; [exact F |]. split; [apply length_fired_at |]. split; [| split].
  - intros i. rewrite fired_at_lookup. unfold first_hit.
    rewrite <- seen_hit. split.
    + intros (L & S1 & A). split; [exact L | split; [exact S1 |]].
      intros j Lj Hj. apply seen_hit in Hj. rewrite (A j Lj) in Hj.
      discriminate.
    + intros (L & S1 & A). split; [exact L | split; [exact S1 |]].
      intros j Lj. destruct (seen s [] chunks j) eqn:E; [| reflexivity].
      exfalso. apply (A j Lj). now apply seen_hit.
  - intros (i & L & Hi). rewrite count_fired_at.
    assert (any_hit s [] chunks = true) as Y.
    { apply any_hit_spec. exists i. split; [exact L | now apply seen_hit]. }
    rewrite Y in *. destruct P as [-> D]. rewrite lookup_insert_eq. auto.
  - intros N. rewrite count_fired_at.
    assert (any_hit s [] chunks = false) as Y.
    { destruct (any_hit s [] chunks) eqn:E; [| reflexivity].
      apply any_hit_spec in E as (i & L & Hi). exfalso.
      apply (N i L). now apply seen_hit. }
    rewrite Y in *. destruct P as (-> & D & B). auto.
Qed.

(** C5.  Once [done] is set, a call of [Write] hands [data] to the
    destination and returns what the destination returned; the channels,
    the buffer and the flag are as before.  So it is for any number of
    further calls. *)
Theorem write_after_done_only_forwards
  (r : watchFor W) (data : list byte) (h : Chan.heap) :
  done r = true ->
  Write r data h
  = Some (mk (fst (write (base r) data)) (buf r) (sentinel r) (c r) true,
          h, snd (write (base r) data))
  /\ forall chunks, exists r',
       feed r h chunks = Some (r', h, replicate (length chunks) false)
       /\ buf r' = buf r /\ done r' = true
       /\ base r' = fold_left (fun b d => fst (write b d)) chunks (base r).
Proof.
  intros D. split; [apply Write_done; exact D |].
  intros chunks. destruct (feed_done chunks r h D) as (r' & F & D' & B & Ba).
  exists r'. auto.
Qed.

End WatcherFacts.

Lemma watcher_signals_once_at_first_hit_witness :
  exists r' h' fired,
    Watch.feed (Watch.mk Discard [] "ready"%string (Some 0%nat) false) heap0
      ready_in_pieces = Some (r', h', fired)
    /\ length fired = length ready_in_pieces
    /\ (forall i, fired !! i = Some true
                  <-> (i < length ready_in_pieces)%nat
                      /\ first_hit "ready" ready_in_pieces i)
    /\ ((exists i, (i < length ready_in_pieces)%nat
                   /\ hit "ready" ready_in_pieces i) ->
        count_occ Bool.bool_dec fired true = 1%nat
        /\ h' !! 0%nat = Some Chan.Closed /\ Watch.done r' = true)
    /\ ((forall i, (i < length ready_in_pieces)%nat
                   -> ~ hit "ready" ready_in_pieces i) ->
        count_occ Bool.bool_dec fired true = 0%nat
        /\ h' = heap0 /\ Watch.done r' = false
        /\ Watch.buf r' = concat ready_in_pieces).
Proof.
  apply (watcher_signals_once_at_first_hit (fun _ : discard => True) Discard
           "ready"%string 0%nat heap0 ready_in_pieces).
  - intros w p _. split; [reflexivity | exact I].
  - exact I.
  - reflexivity.
Defined.

Lemma write_after_done_only_forwards_witness :
  Watch.Write
    (Watch.mk (mkFile (bytes "ready") false) (bytes "ready") "ready"%string
       (Some 0%nat) true)
    (bytes "more") (<[0%nat := Chan.Closed]> heap0)
  = Some (Watch.mk (mkFile (bytes "readymore") false) (bytes "ready")
            "ready"%string (Some 0%nat) true,
          <[0%nat := Chan.Closed]> heap0, (4, None)).
Proof.
  exact (proj1 (write_after_done_only_forwards
                  (Watch.mk (mkFile (bytes "ready") false) (bytes "ready")
                     "ready"%string (Some 0%nat) true)
                  (bytes "more") (<[0%nat := Chan.Closed]> heap0) eq_refl)).
Defined.

(** ** [cmd.go]: the channel is closed by two parties *)

(** C10.  In [cmd.go], when the emulator starts, its standard error can be
    written, and the sentinel ["is now running"] comes up in what the
    child writes, the watcher closes the channel (once), and when the
    child has exited the goroutine closes it again: the run panics with
    "close of closed channel". *)
Theorem cmd_go_closes_channel_twice (stderr : File) (h : Chan.heap)
  (chunks : list (list byte)) :
  closed stderr = false ->
  (exists i, (i < length chunks)%nat /\ hit "is now running" chunks i) ->
  CmdGo.launch stderr h None chunks = Panicked "close of closed channel"
  /\ exists w' h' fired,
       Watch.calls CmdGo.Write
         (Watch.mk stderr [] "is now running"%string
            (Some (fst (Chan.make h))) false)
         (snd (Chan.make h)) chunks = Some (w', h', fired)
       /\ count_occ Bool.bool_dec fired true = 1%nat
       /\ h' !! fst (Chan.make h) = Some Chan.Closed
       /\ Chan.close h' (Some (fst (Chan.make h))) = None.
Proof.
  intros C (i & L & Hi).
  unfold CmdGo.launch, CmdGo.launcher. unfold Chan.make. simpl.
  set (a := fresh (dom h)).
  rewrite (calls_ext _ _ CmdGo_Write_same).
  destruct (feed_open _ File_accepts_all chunks
              (Watch.mk stderr [] "is now running"%string (Some a) false)
              (<[a := Chan.Open]> h) a)
    as (r' & h' & F & P);
    [exact C | reflexivity | reflexivity | apply lookup_insert_eq |].
  simpl in F, P. unfold Watch.feed in F. rewrite F.
  assert (any_hit "is now running" [] chunks = true) as Y.
  { apply any_hit_spec. exists i. split; [exact L | now apply seen_hit]. }
  rewrite Y in P. destruct P as [-> D].
  rewrite lookup_insert_eq. split; [reflexivity |].
  eexists _, _, _. split; [reflexivity |].
  rewrite count_fired_at, Y, lookup_insert_eq. auto.
Qed.

Lemma cmd_go_closes_channel_twice_witness :
  CmdGo.launch (mkFile [] false) ∅ None
    [bytes "dev server is now "; bytes "running."]
  = Panicked "close of closed channel".
Proof.
  exact (proj1 (cmd_go_closes_channel_twice (mkFile [] false) ∅
                  [bytes "dev server is now "; bytes "running."] eq_refl
                  (ex_intro _ 1%nat
                     (conj (le_n 2)
                        (ex_intro _ "dev server "%string
                           (ex_intro _ "."%string eq_refl)))))).
Defined.

Lemma cmd_go_env_lines_precede_environ (out : list byte) (environ : list string) :
  CmdGo.target_env out environ = Supervisor.env_of_output out ++ environ.
Proof. reflexivity. Qed.

(** ** Runs of the supervisor

    A run is followed call by call: [run_norm] unfolds the program,
    [run_step] splits on what the world answers to the next call and
    [run_case] on the answer the program inspects next. *)

Ltac run_norm H :=
  cbv beta iota zeta delta
    [exec bind call log_Fatalf exec_Command
     Supervisor.main Supervisor.forwardSignals Supervisor.Start
     Supervisor.WaitReady Supervisor.Env Supervisor.Stop Supervisor.check
     Supervisor.datastore0 Supervisor.pubsub0 Supervisor.sysprocattr
     Supervisor.cmd Supervisor.ready Supervisor.Command
     Supervisor.EnvCommand Supervisor.ReadySentinel
     PubSubVariant.Start PubSubVariant.Stop PubSubVariant.Env
     PubSubVariant.cmd PubSubVariant.ready
     Args Attr Proc.Env Stdin Stdout Stderr Process fst snd] in H.

Ltac run_step H h :=
  match type of H with
  | context [h ?c ?st] =>
      let x := fresh "x" in
      let st1 := fresh "st" in
      let E := fresh "E" in
      destruct (h c st) as [[x st1]|] eqn:E; cbv beta iota in H
  end.

Ltac run_case H :=
  match type of H with
  | context [match ?x with _ => _ end] =>
      is_var x; destruct x; cbv beta iota in H
  end.

Ltac run_all H h :=
  repeat first [ run_step H h | run_case H ].

Section Runs.
Context {S : Type} (h : Handler S).
Variables (pid : Z) (verbose : bool).
Import Supervisor.

Lemma Start_result (e0 e1 : Emulator) err st tr st' :
  exec h (Start pid verbose e0) st = (tr, Returned (e1, err), st') ->
  (ready e0 <> None /\ e1 = e0 /\ tr = [] /\ st' = st
   /\ err = Some (errors_New "already started"))
  \/ (ready e0 = None /\
      exists a c x,
        ready e1 = Some a /\ cmd e1 = Some c
        /\ Attr c = Some (mkAttr true pid)
        /\ Args c = Command e0 /\ Command e1 = Command e0
        /\ EnvCommand e1 = EnvCommand e0
        /\ Process c = match x with inl p => Some p | inr _ => None end
        /\ err = match x with inl _ => None | inr e => Some e end
        /\ tr = [Ev make_chan a;
                 Ev (cmd_Start (mkCmd (Args c) (Attr c) (Proc.Env c)
                                  (Stdin c) (Stdout c) (Stderr c) None)) x]).
Proof.
  intros H. destruct e0 as [c0 [a0 |] C0 E0 R0]; run_norm H.
  - left. injection H as <- <- <- <-. repeat split. discriminate.
  - right. split; [reflexivity |]. run_step H h; [| discriminate H].
    destruct C0 as [|name arg]; cbv beta iota in H; [discriminate H |].
    run_step H h; [| discriminate H].
    destruct x0 as [p | e]; cbv beta iota in H; injection H as <- <- <- <-;
      [eexists x, _, (inl p) | eexists x, _, (inr e)];
      simpl; repeat split; destruct verbose; reflexivity.
Qed.

(** C4.  After a [Start] that returned without error, a second [Start]
    makes no call at all: it returns the error "already started" and the
    emulator as it was, command handle and channel included. *)
Theorem Start_twice_already_started (e0 e1 : Emulator) st tr st' :
  exec h (Start pid verbose e0) st = (tr, Returned (e1, None), st') ->
  Start pid verbose e1 = Ret (e1, Some (errors_New "already started"))
  /\ forall st2,
      exec h (Start pid verbose e1) st2
      = ([], Returned (e1, Some (errors_New "already started")), st2).
Proof.
  intros H.
  apply Start_result in H
    as [(_ & _ & _ & _ & F) | (_ & a & c & x & R & _)]; [discriminate F |].
  assert (Start pid verbose e1
          = Ret (e1, Some (errors_New "already started"))) as E.
  { unfold Start. rewrite R. reflexivity. }
  split; [exact E |]. intros st2. rewrite E. reflexivity.
Qed.

Lemma Stop_runs (e : Emulator) (c : Cmd) st tr o st' :
  cmd e = Some c ->
  exec h (Stop pid e) st = (tr, o, st') ->
  (tr = [Pending (syscall_Kill (- pid) SIGTERM)] /\ o = Blocked)
  \/ (exists err, tr = [Ev (syscall_Kill (- pid) SIGTERM) (Some err)]
                  /\ o = Returned (Some err))
  \/ (tr = [Ev (syscall_Kill (- pid) SIGTERM) None; Pending (cmd_Wait c)]
      /\ o = Blocked)
  \/ (exists werr,
        tr = [Ev (syscall_Kill (- pid) SIGTERM) None; Ev (cmd_Wait c) werr]
        /\ o = Returned None).
Proof.
  intros C H. destruct e as [c0 a0 C0 E0 R0]. simpl in C. subst c0.
  run_norm H. run_step H h; [| injection H as <- <- <-; auto].
  destruct x as [err |]; cbv beta iota in H.
  - injection H as <- <- <-. right; left. eauto.
  - run_step H h; injection H as <- <- <-.
    + right; right; right. eauto.
    + right; right; left. auto.
Qed.

Lemma Job_Start_result k (j0 j1 : PubSubVariant.Job) st tr st' :
  exec h (PubSubVariant.Start verbose k j0) st
  = (tr, Returned (j1, None), st') ->
  exists c p, PubSubVariant.cmd j1 = Some c /\ Process c = Some p
              /\ Attr c = Some (mkAttr true 0).
Proof.
  intros H. destruct j0 as [c0 [a0 |]]; run_norm H; [discriminate H |].
  run_step H h; [| discriminate H]. run_step H h; [| discriminate H].
  destruct x0 as [p | e]; cbv beta iota in H; [| discriminate H].
  injection H as <- <- <-. eexists _, p. simpl. auto.
Qed.

Lemma Job_Stop_runs (j : PubSubVariant.Job) (c : Cmd) (p : Z) st tr o st' :
  PubSubVariant.cmd j = Some c -> Process c = Some p ->
  exec h (PubSubVariant.Stop j) st = (tr, o, st') ->
  (tr = [Pending (syscall_Getpgid p)] /\ o = Blocked)
  \/ (exists g err, tr = [Ev (syscall_Getpgid p) (g, Some err)]
                    /\ o = Returned (Some err))
  \/ (exists g,
        (tr = [Ev (syscall_Getpgid p) (g, None);
               Pending (syscall_Kill (- g) SIGTERM)] /\ o = Blocked)
        \/ (exists err,
              tr = [Ev (syscall_Getpgid p) (g, None);
                    Ev (syscall_Kill (- g) SIGTERM) (Some err)]
              /\ o = Returned (Some err))
        \/ (tr = [Ev (syscall_Getpgid p) (g, None);
                  Ev (syscall_Kill (- g) SIGTERM) None;
                  Pending (cmd_Wait c)] /\ o = Blocked)
        \/ (exists werr,
              tr = [Ev (syscall_Getpgid p) (g, None);
                    Ev (syscall_Kill (- g) SIGTERM) None;
                    Ev (cmd_Wait c) werr]
              /\ o = Returned None)).
Proof.
  intros C P H. destruct j as [c0 a0]. simpl in C. subst c0.
  destruct c as [c1 c2 c3 c4 c5 c6 c7]. simpl in P. subst c7.
  run_norm H. run_step H h; [| injection H as <- <- <-; auto].
  destruct x as [g [err |]]; cbv beta iota in H.
  - injection H as <- <- <-. right; left. eauto.
  - right; right. exists g.
    run_step H h; [| injection H as <- <- <-; auto].
    destruct x as [err |]; cbv beta iota in H.
    + injection H as <- <- <-. right; left. eauto.
    + run_step H h; injection H as <- <- <-.
      * right; right; right. eauto.
      * right; right; left. auto.
Qed.

(** C8.  [Stop] on a started emulator has four runs and no other.  Its
    first call sends SIGTERM to minus the process group the child was
    started in: the supervisor's own group in the [Emulator] snapshot, the
    group [Getpgid] reports for the child in the [PubSub]/[Datastore]
    snapshot.  If that call (or the lookup) fails, [Stop] returns its error
    and does not wait.  Otherwise it calls [cmd.Wait()] on the child and
    returns nil once [Wait] has returned, whatever [Wait] returned. *)
Theorem Stop_signals_group_then_reaps :
  (forall (e0 e : Emulator) st0 tr0 st0' st tr o st',
      exec h (Start pid verbose e0) st0 = (tr0, Returned (e, None), st0') ->
      exec h (Stop pid e) st = (tr, o, st') ->
      exists c p,
        cmd e = Some c /\ Process c = Some p
        /\ Attr c = Some (mkAttr true pid)
        /\ ((tr = [Pending (syscall_Kill (- pid) SIGTERM)] /\ o = Blocked)
            \/ (exists err,
                  tr = [Ev (syscall_Kill (- pid) SIGTERM) (Some err)]
                  /\ o = Returned (Some err))
            \/ (tr = [Ev (syscall_Kill (- pid) SIGTERM) None;
                      Pending (cmd_Wait c)] /\ o = Blocked)
            \/ (exists werr,
                  tr = [Ev (syscall_Kill (- pid) SIGTERM) None;
                        Ev (cmd_Wait c) werr]
                  /\ o = Returned None)))
  /\ (forall k (j0 j : PubSubVariant.Job) st0 tr0 st0' st tr o st',
        exec h (PubSubVariant.Start verbose k j0) st0
        = (tr0, Returned (j, None), st0') ->
        exec h (PubSubVariant.Stop j) st = (tr, o, st') ->
        exists c p,
          PubSubVariant.cmd j = Some c /\ Process c = Some p
          /\ ((tr = [Pending (syscall_Getpgid p)] /\ o = Blocked)
              \/ (exists g err, tr = [Ev (syscall_Getpgid p) (g, Some err)]
                                /\ o = Returned (Some err))
              \/ (exists g,
                    (tr = [Ev (syscall_Getpgid p) (g, None);
                           Pending (syscall_Kill (- g) SIGTERM)]
                     /\ o = Blocked)
                    \/ (exists err,
                          tr = [Ev (syscall_Getpgid p) (g, None);
                                Ev (syscall_Kill (- g) SIGTERM) (Some err)]
                          /\ o = Returned (Some err))
                    \/ (tr = [Ev (syscall_Getpgid p) (g, None);
                              Ev (syscall_Kill (- g) SIGTERM) None;
                              Pending (cmd_Wait c)] /\ o = Blocked)
                    \/ (exists werr,
                          tr = [Ev (syscall_Getpgid p) (g, None);
                                Ev (syscall_Kill (- g) SIGTERM) None;
                                Ev (cmd_Wait c) werr]
                          /\ o = Returned None)))).
Proof.
  split.
  - intros e0 e st0 tr0 st0' st tr o st' HS HT.
    apply Start_result in HS
      as [(_ & _ & _ & _ & F)
         | (_ & a & c & x & _ & C & A & _ & _ & _ & P & X & _)];
      [discriminate F |].
    destruct x as [p | err]; [| discriminate X].
    exists c, p. split; [exact C |]. split; [exact P |]. split; [exact A |].
    exact (Stop_runs e c st tr o st' C HT).
  - intros k j0 j st0 tr0 st0' st tr o st' HS HT.
    apply Job_Start_result in HS as (c & p & C & P & _).
    exists c, p. split; [exact C |]. split; [exact P |].
    exact (Job_Stop_runs j c p st tr o st' C P HT).
Qed.

(** The [Emulator] snapshot.  When the run reaches the target command, the
    environment it is given is what [os.Environ()] returned, then the lines
    of the helper of the emulator started first, then those of the one
    started second. *)
Theorem target_env_order args st tr o st' (c : Cmd) r :
  exec h (main pid verbose args) st = (tr, o, st') ->
  target_result tr = Some (c, r) ->
  exists environ out1 out2,
    omap environ_of tr = [environ]
    /\ map Args (omap started_of tr) = [Command datastore0; Command pubsub0]
    /\ map (fun x => Args (fst x)) (omap output_of tr)
       = [EnvCommand datastore0; EnvCommand pubsub0]
    /\ map snd (omap output_of tr) = [out1; out2]
    /\ Proc.Env c
       = Some (environ ++ env_of_output out1 ++ env_of_output out2).
Proof.
  intros H T. destruct verbose.
  all: run_norm H.
  all: run_all H h; injection H as <- <- <-; try discriminate T.
  all: injection T as <- <-.
  all: lazymatch goal with
       | |- context [Some ((?a ++ env_of_output ?o1) ++ env_of_output ?o2)] =>
           exists a, o1, o2
       end.
  all: repeat split; try reflexivity.
  all: cbn [Proc.Env]; rewrite <- app_assoc; reflexivity.
Qed.



End Runs.

Lemma run_eta {S R : Type} (x : list Event * Outcome R * S) :
  x = (trace_of x, outcome_of x, snd x).
Proof. destruct x as [[tr o] st]. reflexivity. Qed.

Lemma run_start_returns :
  run_start = (trace_of run_start, Returned (started0, None), snd run_start).
Proof. vm_compute. reflexivity. Qed.

Lemma Start_twice_already_started_witness :
  outcome_of run_start = Returned (started0, None)
  /\ Supervisor.Start 100 false started0
     = Ret (started0, Some (errors_New "already started"))
  /\ forall st2,
       exec answer (Supervisor.Start 100 false started0) st2
       = ([], Returned (started0, Some (errors_New "already started")), st2).
Proof.
  split; [vm_compute; reflexivity |].
  exact (Start_twice_already_started answer 100 false Supervisor.datastore0
           started0 (world0 0 None) (trace_of run_start) (snd run_start)
           run_start_returns).
Defined.

Lemma Stop_signals_group_then_reaps_witness :
  outcome_of run_stop = Returned None
  /\ exists c p,
       Supervisor.cmd started0 = Some c /\ Process c = Some p
       /\ Attr c = Some (mkAttr true 100)
       /\ ((trace_of run_stop = [Pending (syscall_Kill (- 100) SIGTERM)]
            /\ outcome_of run_stop = Blocked)
           \/ (exists err,
                 trace_of run_stop
                 = [Ev (syscall_Kill (- 100) SIGTERM) (Some err)]
                 /\ outcome_of run_stop = Returned (Some err))
           \/ (trace_of run_stop
               = [Ev (syscall_Kill (- 100) SIGTERM) None;
                  Pending (cmd_Wait c)]
               /\ outcome_of run_stop = Blocked)
           \/ (exists werr,
                 trace_of run_stop
                 = [Ev (syscall_Kill (- 100) SIGTERM) None;
                    Ev (cmd_Wait c) werr]
                 /\ outcome_of run_stop = Returned None)).
Proof.
  split; [vm_compute; reflexivity |].
  exact (proj1 (Stop_signals_group_then_reaps answer 100 false)
           Supervisor.datastore0 started0 (world0 0 None)
           (trace_of run_start) (snd run_start) (world0 0 None)
           (trace_of run_stop) (outcome_of run_stop) (snd run_stop)
           run_start_returns (run_eta run_stop)).
Defined.

Lemma run_env_reaches_target :
  target_result (trace_of run_env) = Some (target_cmd ["env"%string], None).
Proof. vm_compute. reflexivity. Qed.

Lemma target_env_order_witness :
  target_result (trace_of run_env) = Some (target_cmd ["env"%string], None)
  /\ exists environ out1 out2,
       omap environ_of (trace_of run_env) = [environ]
       /\ map Args (omap started_of (trace_of run_env))
          = [Supervisor.Command Supervisor.datastore0;
             Supervisor.Command Supervisor.pubsub0]
       /\ map (fun x => Args (fst x)) (omap output_of (trace_of run_env))
          = [Supervisor.EnvCommand Supervisor.datastore0;
             Supervisor.EnvCommand Supervisor.pubsub0]
       /\ map snd (omap output_of (trace_of run_env)) = [out1; out2]
       /\ Proc.Env (target_cmd ["env"%string])
          = Some (environ ++ Supervisor.env_of_output out1
                    ++ Supervisor.env_of_output out2).
Proof.
  split; [exact run_env_reaches_target |].
  exact (target_env_order answer 100 false ["env"%string] (world0 0 None)
           (trace_of run_env) (outcome_of run_env) (snd run_env)
           (target_cmd ["env"%string]) None (run_eta run_env)
           run_env_reaches_target).
Defined.

(** C6.  [cmd.go] does not build the environment the claim states.  With
    [DATASTORE_EMULATOR_HOST=elsewhere:1] in the ambient environment and a
    helper that prints [export DATASTORE_EMULATOR_HOST=localhost:8081], the
    target of [cmd.go] gets the helper's lines first and the ambient
    entries last, which is not the ambient environment followed by the
    helper's lines; the [Emulator] snapshot, in the same world and with the
    same target, gives the ambient entries first, then the datastore
    helper's lines, then the pubsub helper's. *)
Theorem cmd_go_target_env_puts_environ_last :
  target_result (trace_of run_cmd_go_hosts)
  = Some (mkCmd ["env"%string] None
            (Some ["DATASTORE_EMULATOR_HOST=localhost:8081"; EmptyString;
                   "DATASTORE_EMULATOR_HOST=elsewhere:1"; "HOME=/root"]%string)
            Nil (Std os_Stdout) (Std os_Stderr) None, None)
  /\ omap environ_of (trace_of run_cmd_go_hosts) = [ambient world_hosts]
  /\ map snd (omap output_of (trace_of run_cmd_go_hosts))
     = [helper_hosts ["gcloud"; "beta"; "emulators"; "datastore";
                      "env-init"]%string]
  /\ (forall c r,
        target_result (trace_of run_cmd_go_hosts) = Some (c, r) ->
        Proc.Env c
        = Some (Supervisor.env_of_output
                  (helper_hosts ["gcloud"; "beta"; "emulators"; "datastore";
                                 "env-init"]%string)
                ++ ambient world_hosts)
        /\ Proc.Env c
           <> Some (ambient world_hosts
                    ++ Supervisor.env_of_output
                         (helper_hosts ["gcloud"; "beta"; "emulators";
                                        "datastore"; "env-init"]%string)))
  /\ exists c,
       target_result (trace_of run_main_hosts) = Some (c, None)
       /\ Proc.Env c
          = Some (ambient world_hosts
                  ++ Supervisor.env_of_output
                       (helper_hosts
                          (Supervisor.EnvCommand Supervisor.datastore0))
                  ++ Supervisor.env_of_output
                       (helper_hosts
                          (Supervisor.EnvCommand Supervisor.pubsub0))).
Proof.
  assert (target_result (trace_of run_cmd_go_hosts)
          = Some (mkCmd ["env"%string] None
                    (Some ["DATASTORE_EMULATOR_HOST=localhost:8081";
                           EmptyString;
                           "DATASTORE_EMULATOR_HOST=elsewhere:1";
                           "HOME=/root"]%string)
                    Nil (Std os_Stdout) (Std os_Stderr) None, None)) as T
    by (vm_compute; reflexivity).
  split; [exact T |].
  split; [vm_compute; reflexivity |].
  split; [vm_compute; reflexivity |].
  split.
  - intros c r E. rewrite T in E. injection E as <- _.
    split; [vm_compute; reflexivity | vm_compute; discriminate].
  - eexists. split; vm_compute; reflexivity.
Qed.







(** ** The forwarding goroutine *)

Section SignalFacts.
Import Signals.
Variable pgroup : Z.

Lemma forward_inv_step st st' :
  forward_inv pgroup st -> step pgroup st st' -> forward_inv pgroup st'.
Proof.
  intros I St. destruct St as [s st | st st' F].
  - destruct I as [(Wt & Sn & Ch) | (Wt & s0 & rest & R & Sn)].
    + left. unfold deliver; simpl. rewrite Ch. repeat split; try assumption.
      destruct (received st) as [|r rs]; reflexivity.
    + right. unfold deliver; simpl. split; [exact Wt |].
      exists s0, (rest ++ [s]). rewrite R. auto.
  - unfold forward in F. destruct (waiting st) eqn:Wt; [| discriminate F].
    destruct (sigch st) as [|sig q] eqn:Ch; [discriminate F |].
    injection F as <-. right. simpl. split; [reflexivity |].
    destruct I as [(_ & Sn & Ch') | (Wf & _)]; [| congruence].
    rewrite Ch in Ch'. destruct (received st) as [|r rs]; [discriminate Ch' |].
    injection Ch' as -> _. exists r, rs. rewrite Sn. auto.
Qed.

Lemma forward_inv_reach st :
  reach pgroup init st -> forward_inv pgroup st.
Proof.
  induction 1 as [| st1 st2 _ IH St].
  - left. auto.
  - exact (forward_inv_step _ _ IH St).
Qed.

Lemma reach_after_forward st st' :
  waiting st = false -> reach pgroup st st' ->
  waiting st' = false /\ sent st' = sent st.
Proof.
  intros Wf R. induction R as [| st1 st2 _ IH St]; [auto |].
  destruct IH as [W1 S1]. destruct St as [s st1 | st1 st2 F].
  - simpl. auto.
  - unfold forward in F. rewrite W1 in F. discriminate F.
Qed.

Lemma reach_trans st1 st2 st3 :
  reach pgroup st1 st2 -> reach pgroup st2 st3 -> reach pgroup st1 st3.
Proof.
  intros R12 R23. induction R23 as [| x y _ IH St]; [exact R12 |].
  exact (reach_step _ _ _ _ IH St).
Qed.

Lemma run_reach acts : forall st, reach pgroup st (run pgroup acts st).
Proof.
  induction acts as [|[s |] acts IH]; intros st; simpl.
  - constructor.
  - apply reach_trans with (deliver s st); [| apply IH].
    eapply reach_step; constructor.
  - destruct (forward pgroup st) as [st1 |] eqn:F; [| apply IH].
    apply reach_trans with st1; [| apply IH].
    eapply reach_step; [constructor | now constructor].
Qed.

(** C9, as the code has it.  The goroutine forwards one signal and
    returns: at every moment either nothing has been sent, or exactly one
    [kill] has been made, of the first signal received, to [pgroup] (which
    [forwardSignals] sets to minus the supervisor's pid, its process
    group).  While the goroutine waits and a signal has been received, its
    step forwards that first signal.  Once it has returned, nothing more is
    ever sent, whatever arrives. *)
Theorem only_first_signal_is_forwarded (st : state) :
  reach pgroup init st ->
  (sent st = [] \/ exists s rest, received st = s :: rest
                                 /\ sent st = [(pgroup, s)])
  /\ (waiting st = true -> received st <> [] ->
      exists s rest st',
        received st = s :: rest /\ forward pgroup st = Some st'
        /\ sent st' = [(pgroup, s)])
  /\ (waiting st = false ->
      forall st', reach pgroup st st' -> sent st' = sent st).
Proof.
  intros R. pose proof (forward_inv_reach st R) as I. split; [| split].
  - destruct I as [(_ & Sn & _) | (_ & s & rest & E & Sn)]; eauto.
  - intros Wt Ne. destruct I as [(_ & Sn & Ch) | (Wf & _)]; [| congruence].
    destruct (received st) as [|s rest] eqn:E; [congruence |].
    simpl in Ch. exists s, rest. unfold forward. rewrite Wt, Ch, Sn.
    eexists. split; [reflexivity |]. split; reflexivity.
  - intros Wf st' R'. now apply reach_after_forward.
Qed.

End SignalFacts.

Lemma only_first_signal_is_forwarded_witness :
  Signals.sent (Signals.run (- 100) two_signals Signals.init)
  = [(- 100, SIGINT)]
  /\ forall st',
       Signals.reach (- 100)
         (Signals.run (- 100) two_signals Signals.init) st' ->
       Signals.sent st' = [(- 100, SIGINT)].
Proof.
  split; [reflexivity |].
  exact (proj2 (proj2 (only_first_signal_is_forwarded (- 100)
                         (Signals.run (- 100) two_signals Signals.init)
                         (run_reach (- 100) two_signals Signals.init)))
           eq_refl).
Defined.

(** C9 as the specification has it fails: a second signal is received and
    no run from there ever forwards it. *)
Lemma second_signal_is_never_forwarded :
  ~ (forall (pgroup : Z) (st : Signals.state) (s : Signal),
       Signals.reach pgroup Signals.init st -> In s (Signals.received st) ->
       exists st', Signals.reach pgroup st st'
                   /\ In (pgroup, s) (Signals.sent st')).
Proof.
  intros C.
  destruct (C (-100)
              (Signals.run (-100)
                 [Signals.Deliver SIGINT; Signals.Turn; Signals.Deliver SIGTERM]
                 Signals.init)
              SIGTERM) as (st' & R & I).
  - apply run_reach.
  - simpl. auto.
  - apply reach_after_forward in R as [_ S']; [| reflexivity].
    rewrite S' in I. simpl in I. destruct I as [I | []]. discriminate I.
Qed.

(** * Further properties *)


Section MoreStringFacts.
#[local] Arguments String.append !s1 s2 : simpl nomatch.
Local Open Scope string_scope.

Lemma concat_nl_cons (a : ascii) (p : string) (ps : list string) :
  String.concat nl (String a p :: ps) = String a (String.concat nl (p :: ps)).
Proof. destruct ps; reflexivity. Qed.

(** Joining the pieces with line feeds gives the string back. *)
Lemma Split_join_round_trip (s : string) :
  String.concat nl (Split s nl) = s.
Proof.
  unfold Split. induction s as [|a s IH]; [reflexivity |].
  rewrite SplitFrom_nl_cons. destruct (Ascii.eqb_spec a nlchar) as [-> | N].
  - unfold Split. destruct (SplitFrom nl 0 s) as [p ps].
    change (String.concat nl (EmptyString :: p :: ps))
      with (EmptyString ++ nl ++ String.concat nl (p :: ps)).
    rewrite IH. reflexivity.
  - destruct (SplitFrom nl 0 s) as [p ps]. simpl fst; simpl snd.
    rewrite concat_nl_cons, IH. reflexivity.
Qed.

Lemma Split_pieces_no_nl (s : string) :
  Forall (fun v => CountByte nlchar v = 0%nat) (Split s nl).
Proof.
  unfold Split. induction s as [|a s IH]; [repeat constructor |].
  rewrite SplitFrom_nl_cons. destruct (Ascii.eqb a nlchar) eqn:E.
  - unfold Split. destruct (SplitFrom nl 0 s) as [p ps].
    constructor; [reflexivity | exact IH].
  - destruct (SplitFrom nl 0 s) as [p ps]. simpl fst; simpl snd.
    inversion IH as [|x l Hp Hps]; subst. constructor; [| exact Hps].
    simpl. rewrite E. exact Hp.
Qed.

Lemma CountByte_ReplaceFrom_le (b : ascii) old s : forall n k,
  (CountByte b (ReplaceFrom old EmptyString n k s) <= CountByte b s)%nat.
Proof.
  induction s as [|a s IH]; intros n k; [reflexivity |].
  cbn [ReplaceFrom]. destruct k as [|k].
  - destruct (n =? 0)%Z; [reflexivity |].
    destruct (HasPrefix (String a s) old).
    + change (EmptyString ++ ?x) with x.
      specialize (IH (n - 1)%Z (Nat.pred (String.length old))).
      simpl. lia.
    + specialize (IH n 0%nat). simpl. lia.
  - specialize (IH n k). simpl. lia.
Qed.

Lemma ReplaceFrom_no_occurrence old new s : forall n,
  Contains s old = false -> ReplaceFrom old new n 0 s = s.
Proof.
  induction s as [|a s IH]; intros n C; [reflexivity |].
  simpl in C. apply orb_false_iff in C as [P C].
  cbn [ReplaceFrom]. destruct (n =? 0)%Z; [reflexivity |].
  rewrite P. f_equal. now apply IH.
Qed.
End MoreStringFacts.

Section MoreStringFacts2.
#[local] Arguments String.append !s1 s2 : simpl nomatch.
Local Open Scope string_scope.

Lemma HasPrefix_app (x y old : string) :
  HasPrefix x old = true -> HasPrefix (x ++ y) old = true.
Proof.
  rewrite !HasPrefix_spec. intros [suf ->]. exists (suf ++ y).
  apply string_app_assoc.
Qed.

Lemma concat_nl_head (p : string) (ps : list string) :
  exists tl, String.concat nl (p :: ps) = p ++ tl.
Proof.
  destruct ps as [|q qs].
  - exists EmptyString. simpl. induction p as [|a p IH]; [reflexivity |].
    simpl. now rewrite <- IH.
  - now exists (nl ++ String.concat nl (q :: qs)).
Qed.

Lemma Split_pieces_without (old s : string) :
  Contains s old = false ->
  Forall (fun v => Contains v old = false) (Split s nl).
Proof.
  unfold Split. induction s as [|a s IH]; intros C.
  - constructor; [exact C | constructor].
  - simpl in C. apply orb_false_iff in C as [P C]. specialize (IH C).
    assert (HasPrefix EmptyString old = false) as P0.
    { destruct old; [discriminate P | reflexivity]. }
    rewrite SplitFrom_nl_cons. destruct (Ascii.eqb a nlchar).
    + unfold Split. destruct (SplitFrom nl 0 s) as [p ps].
      constructor; [| exact IH]. simpl. now rewrite P0.
    + pose proof (Split_join_round_trip s) as RT. unfold Split in RT.
      destruct (SplitFrom nl 0 s) as [p ps]. simpl fst; simpl snd.
      inversion IH as [|x l Hp Hps]; subst x l. constructor; [| exact Hps].
      simpl. rewrite Hp, orb_false_r.
      destruct (HasPrefix (String a p) old) eqn:Q; [| reflexivity].
      destruct (concat_nl_head p ps) as [tl E]. rewrite E in RT.
      apply HasPrefix_app with (y := tl) in Q.
      change (String a p ++ tl) with (String a (p ++ tl)) in Q.
      rewrite RT in Q. congruence.
Qed.

(** X1.  [Env] never returns an empty list, and no element it returns
    holds a line feed. *)
Theorem Env_elements_are_lines (out : list byte) :
  Supervisor.env_of_output out <> []
  /\ Forall (fun v => CountByte nlchar v = 0%nat)
       (Supervisor.env_of_output out).
Proof.
  unfold Supervisor.env_of_output. split.
  - unfold Split. destruct (SplitFrom nl 0 (string_of_list_byte out)).
    discriminate.
  - apply List.Forall_map.
    eapply List.Forall_impl; [| apply Split_pieces_no_nl].
    intros v N. simpl in *. unfold Replace. simpl String.eqb.
    pose proof (CountByte_ReplaceFrom_le nlchar "export " v (-1) 0). lia.
Qed.

(** X2.  An output in which ["export "] does not occur comes back as its
    lines, unchanged: joining them with line feeds gives the output. *)
Theorem Env_without_export_returns_lines (out : list byte) :
  Contains (string_of_list_byte out) "export " = false ->
  Supervisor.env_of_output out = Split (string_of_list_byte out) nl
  /\ String.concat nl (Supervisor.env_of_output out)
     = string_of_list_byte out.
Proof.
  intros C.
  assert (Supervisor.env_of_output out = Split (string_of_list_byte out) nl)
    as E.
  { unfold Supervisor.env_of_output.
    pose proof (Split_pieces_without "export " _ C) as F.
    induction F as [|v l Hv _ IH]; [reflexivity |].
    simpl. rewrite IH. f_equal. unfold Replace. simpl String.eqb.
    now apply ReplaceFrom_no_occurrence. }
  split; [exact E |]. rewrite E. apply Split_join_round_trip.
Qed.
End MoreStringFacts2.

Section MoreWatcherFacts.
Context {W : Type} `{Writer W}.
Import Watch.

Lemma Write_forward_fails (r : watchFor W) data h e :
  snd (snd (write (base r) data)) = Some e ->
  Write r data h
  = Some (mk (fst (write (base r) data)) (buf r) (sentinel r) (c r) (done r),
          h, snd (write (base r) data)).
Proof.
  intros E. unfold Write. destruct (write (base r) data) as [b [n err]].
  simpl in *. subst err. rewrite orb_true_r. reflexivity.
Qed.

Lemma count_replicate_false n :
  count_occ Bool.bool_dec (replicate n false) true = 0%nat.
Proof.
  apply count_occ_not_In. intros I.
  apply list_elem_of_In, elem_of_replicate_inv in I. discriminate.
Qed.

Lemma feed_any chunks : forall (r : watchFor W) h a,
  done r = false -> c r = Some a -> h !! a = Some Chan.Open ->
  exists r' h' fired,
    feed r h chunks = Some (r', h', fired)
    /\ base r' = fold_left (fun b d => fst (write b d)) chunks (base r)
    /\ ((done r' = true /\ h' = <[a := Chan.Closed]> h
         /\ count_occ Bool.bool_dec fired true = 1%nat)
        \/ (done r' = false /\ h' = h
            /\ count_occ Bool.bool_dec fired true = 0%nat)).
Proof.
  induction chunks as [|d rest IH]; intros r h a D C O.
  - exists r, h, []. simpl. auto 10.
  - unfold feed in *. simpl.
    destruct (snd (snd (write (base r) d))) as [e |] eqn:E.
    + rewrite (Write_forward_fails r d h e E).
      destruct (IH (mk (fst (write (base r) d)) (buf r) (sentinel r) (c r)
                      (done r)) h a D C O)
        as (r' & h' & fired & F & B & K).
      simpl in F, B. rewrite F. eexists r', h', _.
      split; [reflexivity |]. rewrite C. simpl. rewrite O. simpl.
      split; assumption.
    + rewrite (Write_open r d h a E D C O). simpl.
      destruct (Contains _ (sentinel r)).
      * destruct (feed_done rest
                    (mk (fst (write (base r) d)) (buf r ++ d) (sentinel r)
                       (c r) true) (<[a := Chan.Closed]> h) eq_refl)
          as (r' & F & D' & B' & Ba).
        unfold feed in F. rewrite F. eexists r', _, _.
        split; [reflexivity |]. rewrite C. simpl.
        rewrite O, lookup_insert_eq. simpl.
        split; [exact Ba |]. left. rewrite count_replicate_false. auto.
      * destruct (IH (mk (fst (write (base r) d)) (buf r ++ d) (sentinel r)
                        (c r) false) h a eq_refl C O)
          as (r' & h' & fired & F & B & K).
        simpl in F, B. rewrite F. eexists r', h', _.
        split; [reflexivity |]. rewrite C. simpl. rewrite O. simpl.
        split; assumption.
Qed.

Lemma feed_buf_at_first_hit good (ok : accepts_all good) chunks :
  forall (r : watchFor W) h a i,
  good (base r) ->
  done r = false -> c r = Some a -> h !! a = Some Chan.Open ->
  (i < length chunks)%nat ->
  seen (sentinel r) (buf r) chunks i = true ->
  (forall j, (j < i)%nat -> seen (sentinel r) (buf r) chunks j = false) ->
  exists r' h' fired,
    feed r h chunks = Some (r', h', fired)
    /\ buf r' = buf r ++ concat (firstn (S i) chunks).
Proof.
  induction chunks as [|d rest IH]; intros r h a i G D C O L S1 A;
    [inversion L |].
  unfold feed in *. simpl. destruct (ok _ d G) as [E0 G'].
  rewrite (Write_open r d h a E0 D C O). simpl.
  destruct i as [|i].
  - rewrite seen_0 in S1. rewrite S1.
    destruct (feed_done rest
                (mk (fst (write (base r) d)) (buf r ++ d) (sentinel r)
                   (c r) true) (<[a := Chan.Closed]> h) eq_refl)
      as (r' & F & D' & B' & Ba).
    unfold feed in F. rewrite F. eexists r', _, _.
    split; [reflexivity |]. rewrite B'. simpl. now rewrite app_nil_r.
  - pose proof (A 0%nat ltac:(lia)) as A0. rewrite seen_0 in A0. rewrite A0.
    destruct (IH (mk (fst (write (base r) d)) (buf r ++ d) (sentinel r)
                    (c r) false) h a i G' eq_refl C O)
      as (r' & h' & fired & F & B); simpl.
    + simpl in L. lia.
    + now rewrite <- seen_S.
    + intros j Lj. rewrite <- seen_S with (d := d). apply A. lia.
    + simpl in F, B. rewrite F. eexists r', h', _.
      split; [reflexivity |]. rewrite B. now rewrite <- app_assoc.
Qed.

(** X3.  Whatever the destination does, failing writes included, a fresh
    watcher on an open channel never panics and closes the channel at most
    once; [done] is set exactly when it has closed it; and every chunk is
    handed to the destination, in order. *)
Theorem watcher_never_closes_twice
  (b0 : W) (s : string) (a : nat) (h : Chan.heap) (chunks : list (list byte)) :
  h !! a = Some Chan.Open ->
  exists r' h' fired,
    feed (mk b0 [] s (Some a) false) h chunks = Some (r', h', fired)
    /\ base r' = fold_left (fun b d => fst (write b d)) chunks b0
    /\ ((done r' = true /\ h' = <[a := Chan.Closed]> h
         /\ count_occ Bool.bool_dec fired true = 1%nat)
        \/ (done r' = false /\ h' = h
            /\ count_occ Bool.bool_dec fired true = 0%nat)).
Proof.
  intros O. exact (feed_any chunks (mk b0 [] s (Some a) false) h a
                     eq_refl eq_refl O).
Qed.

Lemma hit_last s chunks :
  chunks <> [] ->
  (hit s chunks (length chunks - 1) <-> occurs s (concat chunks)).
Proof.
  intros N. unfold hit.
  replace (S (length chunks - 1)) with (length chunks)
    by (destruct chunks; [congruence | simpl; lia]).
  now rewrite firstn_all.
Qed.

Lemma hit_mono s chunks i :
  hit s chunks i -> occurs s (concat chunks).
Proof.
  unfold hit, occurs. intros (pre & suf & E).
  rewrite <- (firstn_skipn (S i) chunks), concat_app.
  rewrite string_of_list_byte_app, E.
  exists pre, (suf ++ string_of_list_byte (concat (skipn (S i) chunks)))%string.
  now rewrite !string_app_assoc.
Qed.

(** X4.  Readiness is a property of the stream, not of its chunking:
    after at least one call the channel is closed exactly when the bytes
    written contain the sentinel; and the buffer keeps the chunks up to
    the call that signalled, and no more. *)
Theorem readiness_depends_on_stream_only
  (good : W -> Prop) (b0 : W) (s : string) (a : nat) (h : Chan.heap)
  (chunks : list (list byte)) :
  accepts_all good -> good b0 -> h !! a = Some Chan.Open -> chunks <> [] ->
  exists r' h' fired,
    feed (mk b0 [] s (Some a) false) h chunks = Some (r', h', fired)
    /\ (h' !! a = Some Chan.Closed <-> occurs s (concat chunks))
    /\ (forall i, (i < length chunks)%nat -> first_hit s chunks i ->
        buf r' = concat (firstn (S i) chunks)).
Proof.
  intros ok G O N.
  destruct (feed_open good ok chunks (mk b0 [] s (Some a) false) h a)
    as (r' & h' & F & P); [exact G | reflexivity | reflexivity | exact O |].
  simpl in F, P. exists r', h', (fired_at s [] chunks).
  split; [exact F |]. split.
  - destruct (any_hit s [] chunks) eqn:Y.
    + destruct P as [-> _]. rewrite lookup_insert_eq.
      apply any_hit_spec in Y as (i & L & Hi). apply seen_hit in Hi.
      split; [intros _; now apply hit_mono with i | reflexivity].
    + destruct P as (-> & _). rewrite O. split; [discriminate |].
      intros Oc. apply hit_last in Oc; [| exact N]. exfalso.
      assert (any_hit s [] chunks = true) as Y'; [| congruence].
      apply any_hit_spec. exists (length chunks - 1)%nat.
      split; [destruct chunks; [congruence | simpl; lia] |].
      now apply seen_hit.
  - intros i L [Hi A].
    destruct (feed_buf_at_first_hit good ok chunks
                (mk b0 [] s (Some a) false) h a i)
      as (r2 & h2 & f2 & F2 & B2); simpl;
      [exact G | reflexivity | reflexivity | exact O | exact L
       | now apply seen_hit | |].
    + intros j Lj. destruct (seen s [] chunks j) eqn:E; [| reflexivity].
      exfalso. apply (A j Lj). now apply seen_hit.
    + rewrite F in F2. injection F2 as <- _ _. exact B2.
Qed.

(** X5.  [Write] panics exactly when it is about to signal (not done,
    the write forwarded, the sentinel in the buffer) on a channel that is
    nil or not open. *)
Theorem Write_panics_iff (r : watchFor W) (data : list byte) (h : Chan.heap) :
  Write r data h = None
  <-> done r = false
      /\ snd (snd (write (base r) data)) = None
      /\ Contains (string_of_list_byte (buf r ++ data)) (sentinel r) = true
      /\ (c r = None
          \/ exists a, c r = Some a /\ h !! a <> Some Chan.Open).
Proof.
  unfold Write. destruct (write (base r) data) as [b [n err]]. simpl.
  destruct (done r); simpl.
  { split; [discriminate | intros [F _]; discriminate F]. }
  destruct err as [e |]; simpl.
  { split; [discriminate | intros (_ & F & _); discriminate F]. }
  destruct (Contains _ (sentinel r)).
  2: { split; [discriminate | intros (_ & _ & F & _); discriminate F]. }
  destruct (c r) as [a |]; simpl.
  - destruct (h !! a) as [[|] |] eqn:L.
    + split; [discriminate |].
      intros (_ & _ & _ & [F | (a' & E & Ne)]); [discriminate F |].
      injection E as <-. congruence.
    + split; [| reflexivity]. intros _. repeat split. right. exists a.
      split; [reflexivity |]. rewrite L. discriminate.
    + split; [| reflexivity]. intros _. repeat split. right. exists a.
      split; [reflexivity |]. rewrite L. discriminate.
  - split; [| reflexivity]. intros _. repeat split. now left.
Qed.

(** X6.  The [Write] of [cmd.go] and the [Write] of the later snapshots
    give the same result on every watcher, heap and sequence of chunks. *)
Theorem cmd_go_Write_agrees_on_every_stream
  (r : watchFor W) (h : Chan.heap) (chunks : list (list byte)) :
  calls CmdGo.Write r h chunks = feed r h chunks.
Proof. unfold feed. apply calls_ext. exact CmdGo_Write_same. Qed.

End MoreWatcherFacts.

Lemma File_fold_write (chunks : list (list byte)) : forall f : File,
  closed f = false ->
  fold_left (fun b d => fst (write b d)) chunks f
  = mkFile (contents f ++ concat chunks) false.
Proof.
  induction chunks as [|d rest IH]; intros [ct cl] C; simpl in *; subst cl.
  - now rewrite app_nil_r.
  - unfold write at 2, File_Writer. simpl. rewrite IH by reflexivity.
    simpl. now rewrite <- app_assoc.
Qed.

(** X7.  With an open file as destination, every byte written to the
    watcher reaches the file, in order, before and after readiness. *)
Theorem forwarding_to_open_file_is_lossless
  (f : File) (s : string) (a : nat) (h : Chan.heap)
  (chunks : list (list byte)) :
  closed f = false -> h !! a = Some Chan.Open ->
  exists r' h' fired,
    Watch.feed (Watch.mk f [] s (Some a) false) h chunks
    = Some (r', h', fired)
    /\ Watch.base r' = mkFile (contents f ++ concat chunks) false.
Proof.
  intros C O.
  destruct (feed_any chunks (Watch.mk f [] s (Some a) false) h a
              eq_refl eq_refl O) as (r' & h' & fired & F & B & _).
  exists r', h', fired. split; [exact F |].
  rewrite B. simpl. now apply File_fold_write.
Qed.

(** X8.  In [cmd.go] a child that exits without having written the
    sentinel still releases [main]: the goroutine closes the channel, once,
    and a receive on it proceeds. *)
Theorem cmd_go_exit_without_sentinel_releases_main
  (stderr : File) (h : Chan.heap) (chunks : list (list byte)) :
  closed stderr = false ->
  (forall i, (i < length chunks)%nat -> ~ hit "is now running" chunks i) ->
  CmdGo.launch stderr h None chunks
  = Returned (mkFile (contents stderr ++ concat chunks) false,
              <[fst (Chan.make h) := Chan.Closed]> (snd (Chan.make h)))
  /\ Chan.ready (<[fst (Chan.make h) := Chan.Closed]> (snd (Chan.make h)))
       (Some (fst (Chan.make h))) = true.
Proof.
  intros C N. unfold CmdGo.launch, CmdGo.launcher, Chan.make. simpl.
  set (a := fresh (dom h)).
  rewrite (calls_ext _ _ CmdGo_Write_same).
  destruct (feed_open _ File_accepts_all chunks
              (Watch.mk stderr [] "is now running"%string (Some a) false)
              (<[a := Chan.Open]> h) a)
    as (r' & h' & F & P);
    [exact C | reflexivity | reflexivity | apply lookup_insert_eq |].
  destruct (feed_any chunks
              (Watch.mk stderr [] "is now running"%string (Some a) false)
              (<[a := Chan.Open]> h) a eq_refl eq_refl
              (lookup_insert_eq _ _ _))
    as (r2 & h2 & f2 & F2 & B2 & _).
  rewrite F in F2. injection F2 as <- <- _.
  simpl in F, P, B2. unfold Watch.feed in F. rewrite F.
  assert (any_hit "is now running" [] chunks = false) as Y.
  { destruct (any_hit "is now running" [] chunks) eqn:E; [| reflexivity].
    apply any_hit_spec in E as (i & L & Hi). exfalso.
    apply (N i L). now apply seen_hit. }
  rewrite Y in P. destruct P as (-> & _ & _).
  rewrite lookup_insert_eq, B2, File_fold_write by exact C.
  split; [reflexivity |]. now rewrite lookup_insert_eq.
Qed.


Ltac run_norm2 H :=
  cbv beta iota zeta delta
    [exec bind call log_Fatalf exec_Command
     Supervisor.main Supervisor.forwardSignals Supervisor.Start
     Supervisor.WaitReady Supervisor.Env Supervisor.Stop Supervisor.check
     Supervisor.datastore0 Supervisor.pubsub0 Supervisor.sysprocattr
     Supervisor.cmd Supervisor.ready Supervisor.Command
     Supervisor.EnvCommand Supervisor.ReadySentinel
     PubSubVariant.main PubSubVariant.WaitReady
     PubSubVariant.Start PubSubVariant.Stop PubSubVariant.Env
     PubSubVariant.cmd PubSubVariant.ready PubSubVariant.start_line
     PubSubVariant.env_line PubSubVariant.sentinel_of
     PubSubVariant.already_started CmdGo.main_rest
     Args Attr Proc.Env Stdin Stdout Stderr Process fst snd] in H.

Section MoreRuns.
Context {S : Type} (h : Handler S).
Variables (pid : Z) (verbose : bool).
Import Supervisor.

(** X9.  A [Start] that goes as far as the spawn attaches a fresh watcher
    to the child's standard error: empty buffer, not done, the emulator's
    sentinel, and the very channel stored in [ready]; the destination and
    the child's standard output follow the flag [-v]. *)
Theorem Start_attaches_fresh_watcher (e0 e1 : Emulator) err st tr st' :
  exec h (Start pid verbose e0) st = (tr, Returned (e1, err), st') ->
  ready e0 = None ->
  exists a c,
    ready e1 = Some a /\ cmd e1 = Some c /\ omap made_of tr = [a]
    /\ watcher_of c
       = Some (Watch.mk (if verbose then os_Stderr else ioutil_Discard) []
                 (ReadySentinel e0) (Some a) false)
    /\ Stdout c = (if verbose then Std os_Stdout else Nil)
    /\ Stdin c = Nil /\ Proc.Env c = None
    /\ ReadySentinel e1 = ReadySentinel e0.
Proof.
  intros H R. destruct e0 as [c0 a0 C0 E0 R0]. simpl in R. subst a0.
  run_norm2 H. run_step H h; [| discriminate H].
  destruct C0 as [|name arg]; cbv beta iota in H; [discriminate H |].
  run_step H h; [| discriminate H].
  destruct x0 as [p | e]; cbv beta iota in H; injection H as <- <- <- <-;
    eexists x, _; simpl; repeat split; destruct verbose; reflexivity.
Qed.

(** X10.  Whenever [Start] returns, with an error or without, [ready] is
    set: so a [Start] whose spawn failed cannot be retried, the next call
    returns "already started" and makes no call. *)
Theorem Start_cannot_be_retried (e0 e1 : Emulator) err st tr st' :
  exec h (Start pid verbose e0) st = (tr, Returned (e1, err), st') ->
  ready e1 <> None
  /\ forall st2,
      exec h (Start pid verbose e1) st2
      = ([], Returned (e1, Some (errors_New "already started")), st2).
Proof.
  intros H.
  assert (exists a, ready e1 = Some a) as [a R].
  { apply Start_result in H
      as [(N & -> & _) | (_ & a & c & x & R & _)]; [| now exists a].
    destruct (ready e0) as [a |]; [now exists a | congruence]. }
  split; [congruence |]. intros st2. unfold Start. rewrite R. reflexivity.
Qed.

(** X11.  On an emulator that was never started, [WaitReady] blocks for
    ever without a call, and [Stop] still signals the whole group and then,
    if the signal went out, panics on the nil command. *)
Theorem unstarted_emulator_blocks_or_panics (e : Emulator) st :
  (ready e = None -> exec h (WaitReady e) st = ([], Blocked, st))
  /\ (cmd e = None ->
      forall tr o st',
        exec h (Stop pid e) st = (tr, o, st') ->
        (tr = [Pending (syscall_Kill (- pid) SIGTERM)] /\ o = Blocked)
        \/ (exists err, tr = [Ev (syscall_Kill (- pid) SIGTERM) (Some err)]
                        /\ o = Returned (Some err))
        \/ (tr = [Ev (syscall_Kill (- pid) SIGTERM) None]
            /\ o = Panicked "nil pointer dereference")).
Proof.
  split.
  - intros R. unfold WaitReady. rewrite R. reflexivity.
  - intros C tr o st' H. destruct e as [c0 a0 C0 E0 R0]. simpl in C. subst c0.
    run_norm2 H. run_step H h; [| injection H as <- <- <-; auto].
    destruct x as [err |]; cbv beta iota in H; injection H as <- <- <-.
    + right; left. eauto.
    + right; right. auto.
Qed.


(** X13.  The supervisor exits with status 0 only through the one full
    run: the eighteen calls in their fixed order, all answered, the target
    returning nil and both [Stop]s succeeding; and a run in which the
    target returned nil and no [Stop] failed exits with 0 if it exits. *)
Theorem exit_0_iff_clean_run args st tr o st' :
  exec h (main pid verbose args) st = (tr, o, st') ->
  (exit_status o = Some 0 ->
   exists d0 p0 a1 a2 c d p,
     map call_of tr
     = [syscall_Setpgid pid pid; os_FindProcess (- pid); go_forward (- pid);
        signal_Notify [SIGINT; SIGTERM; SIGHUP];
        make_chan; cmd_Start d0; make_chan; cmd_Start p0;
        chan_recv a1; chan_recv a2; os_Environ;
        cmd_CombinedOutput
          (exec_Command "gcloud" (tl (EnvCommand datastore0)));
        cmd_CombinedOutput
          (exec_Command "gcloud" (tl (EnvCommand pubsub0)));
        cmd_Run c;
        syscall_Kill (- pid) SIGTERM; cmd_Wait d;
        syscall_Kill (- pid) SIGTERM; cmd_Wait p]
     /\ omap made_of tr = [a1; a2]
     /\ map Args [d0; p0; d; p]
        = [Command datastore0; Command pubsub0;
           Command datastore0; Command pubsub0]
     /\ target_result tr = Some (c, None)
     /\ stop_failures tr = [] /\ forallb returned tr = true)
  /\ (forall n c, exit_status o = Some n ->
                  target_result tr = Some (c, None) ->
                  stop_failures tr = [] -> n = 0).
Proof.
  intros H. destruct verbose.
  all: run_norm2 H.
  all: run_all H h; injection H as <- <- <-.
  all: split;
    [ intros Z0; try discriminate Z0
    | intros n c Hn T F; try discriminate T; try discriminate F;
      try discriminate Hn; cbn in Hn; congruence ].
  all: eexists _, _, _, _, _, _, _; repeat split; reflexivity.
Qed.

(** X14.  With no target command, [main] still starts and waits for both
    emulators and queries both helpers before it panics on [flag.Args()[0]]:
    the target is never run and no emulator is stopped. *)
Theorem no_target_command_panics_after_startup st tr o st' :
  exec h (main pid verbose []) st = (tr, o, st') ->
  target_result tr = None /\ omap kill_of tr = []
  /\ (forall n, exit_status o = Some n -> n = 1 \/ n = 2)
  /\ (exit_status o = Some 2 ->
      o = Panicked "index out of range"
      /\ length (omap started_of tr) = 2%nat /\ start_failures tr = []
      /\ length (omap output_of tr) = 2%nat /\ helper_failures tr = []
      /\ omap recv_of tr = omap made_of tr).
Proof.
  intros H. destruct verbose.
  all: run_norm2 H.
  all: run_all H h; injection H as <- <- <-.
  all: split; [reflexivity |]. all: split; [reflexivity |].
  all: split; [intros n Hn; cbn in Hn; first [discriminate Hn | injection Hn as <-; auto] |].
  all: intros Hn; try discriminate Hn; repeat split; reflexivity.
Qed.


(** X16.  Both emulators are started before the first [WaitReady], and
    the waits are on the channels the two [Start]s made, in start order. *)
Theorem both_started_before_any_wait args st tr o st' :
  exec h (main pid verbose args) st = (tr, o, st') ->
  omap recv_of tr <> [] ->
  exists a1 a2,
    omap made_of tr = [a1; a2]
    /\ (omap recv_of tr = [a1] \/ omap recv_of tr = [a1; a2])
    /\ length (omap started_of (before_recv tr)) = 2%nat
    /\ omap recv_of (before_recv tr) = []
    /\ start_failures tr = [].
Proof.
  intros H F. destruct verbose.
  all: run_norm2 H.
  all: run_all H h; injection H as <- <- <-;
    try (exfalso; apply F; reflexivity).
  all: lazymatch goal with
       | |- context [Ev make_chan ?a1 :: _ :: Ev make_chan ?a2 :: _] =>
           exists a1, a2
       end.
  all: split; [reflexivity |].
  all: split; [first [left; reflexivity | right; reflexivity] |].
  all: repeat split; reflexivity.
Qed.


(** X17.  In the [PubSub]/[Datastore] snapshot the datastore emulator is
    started first, each emulator in a new process group of its own, the
    target in none; the target's environment is [os.Environ()], then the
    datastore helper's lines, then the pubsub helper's. *)
Theorem variant_target_env_and_groups args st tr o st' (c : Cmd) r :
  exec h (PubSubVariant.main verbose args) st = (tr, o, st') ->
  target_result tr = Some (c, r) ->
  exists environ out1 out2,
    omap environ_of tr = [environ]
    /\ map Args (omap started_of tr)
       = [PubSubVariant.start_line PubSubVariant.Datastore;
          PubSubVariant.start_line PubSubVariant.PubSub]
    /\ map Attr (omap started_of tr)
       = [Some (mkAttr true 0); Some (mkAttr true 0)]
    /\ map (fun x => Args (fst x)) (omap output_of tr)
       = [PubSubVariant.env_line PubSubVariant.Datastore;
          PubSubVariant.env_line PubSubVariant.PubSub]
    /\ map snd (omap output_of tr) = [out1; out2]
    /\ Proc.Env c
       = Some (environ ++ env_of_output out1 ++ env_of_output out2)
    /\ Attr c = None /\ Args c = args.
Proof.
  intros H T. destruct verbose.
  all: run_norm2 H.
  all: run_all H h; injection H as <- <- <-; try discriminate T.
  all: injection T as <- <-.
  all: lazymatch goal with
       | |- context [Some ((?a ++ env_of_output ?o1) ++ env_of_output ?o2)] =>
           exists a, o1, o2
       end.
  all: split; [reflexivity |]. all: split; [reflexivity |].
  all: split; [reflexivity |].
  all: split; [reflexivity |]. all: split; [reflexivity |].
  all: split; [cbn [Proc.Env]; rewrite <- app_assoc; reflexivity |].
  all: split; reflexivity.
Qed.

(** X18.  In that snapshot too the exit status is 0 or 1, and 0 only
    when the target returned nil and no [Stop] failed; in a run that exits
    with 0 each emulator's [Stop] looks up the group of its own child,
    signals minus that group and waits for the child, datastore first. *)
Theorem variant_teardown_signals_each_group args st tr o st' (c : Cmd) r :
  exec h (PubSubVariant.main verbose args) st = (tr, o, st') ->
  target_result tr = Some (c, r) ->
  (forall n, exit_status o = Some n ->
             (n = 0 /\ r = None /\ stop_failures tr = []) \/ n = 1)
  /\ (exit_status o = Some 0 ->
      exists d p p1 p2 g1 g2 w1 w2,
        map Args [d; p]
        = [PubSubVariant.start_line PubSubVariant.Datastore;
           PubSubVariant.start_line PubSubVariant.PubSub]
        /\ Process d = Some p1 /\ Process p = Some p2
        /\ after_run tr
           = [Ev (syscall_Getpgid p1) (g1, None);
              Ev (syscall_Kill (- g1) SIGTERM) None; Ev (cmd_Wait d) w1;
              Ev (syscall_Getpgid p2) (g2, None);
              Ev (syscall_Kill (- g2) SIGTERM) None; Ev (cmd_Wait p) w2]).
Proof.
  intros H T. destruct verbose.
  all: run_norm2 H.
  all: run_all H h; injection H as <- <- <-; try discriminate T.
  all: injection T as <- <-.
  all: split;
    [ intros n Hn; cbn in Hn;
      first [ discriminate Hn
            | injection Hn as <-; first [ right; reflexivity
                                        | left; repeat split; reflexivity ] ]
    | intros Hn; try discriminate Hn ].
  all: eexists _, _, _, _, _, _, _, _; repeat split; reflexivity.
Qed.

(** X19.  [cmd.go] after the receive: the emulator is never signalled or
    waited for; the target, [os.Args[1:]], gets the helper's lines followed
    by [os.Environ()], no standard input and no process group; the exit
    status is 0 when the target returns nil, 1 when it fails, and with
    fewer than two arguments the target is not run. *)
Theorem cmd_go_main_rest_runs argv st tr o st' :
  exec h (CmdGo.main_rest argv) st = (tr, o, st') ->
  omap kill_of tr = [] /\ omap wait_of tr = []
  /\ (forall c r, target_result tr = Some (c, r) ->
      exists out environ,
        map snd (omap output_of tr) = [out]
        /\ omap environ_of tr = [environ]
        /\ Proc.Env c = Some (env_of_output out ++ environ)
        /\ Args c = tl argv /\ Stdin c = Nil /\ Attr c = None
        /\ (forall n, exit_status o = Some n ->
                      (n = 0 /\ r = None) \/ (n = 1 /\ r <> None)))
  /\ (forall n, exit_status o = Some n -> n = 0 \/ n = 1 \/ n = 2)
  /\ ((length argv < 2)%nat -> target_result tr = None).
Proof.
  intros H. run_norm2 H.
  run_all H h; injection H as <- <- <-.
  all: split; [reflexivity |]. all: split; [reflexivity |].
  all: split;
    [ intros c r T; try discriminate T
    | split;
      [ intros n Hn; cbn in Hn;
        first [discriminate Hn | injection Hn as <-; auto]
      | intros L; first [reflexivity | simpl in L; lia] ] ].
  all: injection T as <- <-.
  all: lazymatch goal with
       | |- context [CmdGo.target_env ?out ?environ] => exists out, environ
       end.
  all: repeat split; try reflexivity.
  all: intros n Hn; cbn in Hn;
    first [ discriminate Hn
          | injection Hn as <-;
            first [ left; split; [reflexivity | reflexivity]
                  | right; split; [reflexivity | discriminate] ] ].
Qed.

End MoreRuns.

Section MoreSignalFacts.
Import Signals.
Variable pgroup : Z.

(** X20.  The signal channel never holds more than one signal: a signal
    that arrives while one is pending is received but dropped; at most one
    [kill] is ever sent; and what is pending has been received. *)
Theorem sigch_never_holds_two (st : state) :
  reach pgroup init st ->
  (length (sigch st) <= 1)%nat
  /\ (forall s, length (sigch st) = 1%nat ->
                sigch (deliver s st) = sigch st
                /\ received (deliver s st) = received st ++ [s])
  /\ (length (sent st) <= 1)%nat
  /\ (forall s, In s (sigch st) -> In s (received st)).
Proof.
  intros R.
  assert ((length (sigch st) <= 1)%nat
          /\ forall s, In s (sigch st) -> In s (received st)) as [L I].
  { induction R as [| st1 st2 _ [L I] St]; [simpl; split; [lia | tauto] |].
    destruct St as [s st1 | st1 st2 F].
    - unfold deliver; simpl. destruct (sigch st1) as [|x [|y q]] eqn:E;
        simpl in *; try lia.
      + split; [lia |]. intros s0 [<- | []]. apply in_or_app. simpl. auto.
      + split; [lia |]. intros s0 [<- | []]. apply in_or_app. left.
        apply I. now left.
    - unfold forward in F. destruct (waiting st1); [| discriminate F].
      destruct (sigch st1) as [|x q] eqn:E; [discriminate F |].
      injection F as <-. simpl in *. split; [lia |].
      intros s0 Hs. apply I. now right. }
  split; [exact L |]. split.
  - intros s E. unfold deliver; simpl. rewrite E. simpl. auto.
  - split; [| exact I].
    destruct (forward_inv_reach pgroup st R)
      as [(_ & -> & _) | (_ & s & rest & _ & ->)]; simpl; lia.
Qed.
End MoreSignalFacts.

(** ** The further properties at work *)

Lemma Env_without_export_returns_lines_witness :
  Supervisor.env_of_output (bytes ("A=1" ++ nl ++ "B=2"))
  = Split (string_of_list_byte (bytes ("A=1" ++ nl ++ "B=2"))) nl
  /\ String.concat nl
       (Supervisor.env_of_output (bytes ("A=1" ++ nl ++ "B=2")))
     = string_of_list_byte (bytes ("A=1" ++ nl ++ "B=2")).
Proof.
  exact (Env_without_export_returns_lines (bytes ("A=1" ++ nl ++ "B=2"))
           eq_refl).
Defined.

Lemma watcher_never_closes_twice_witness :
  exists r' h' fired,
    Watch.feed (Watch.mk (mkFile [] true) [] "ready"%string (Some 0%nat) false)
      heap0 ready_in_pieces = Some (r', h', fired)
    /\ Watch.base r'
       = fold_left (fun b d => fst (write b d)) ready_in_pieces
           (mkFile [] true)
    /\ ((Watch.done r' = true /\ h' = <[0%nat := Chan.Closed]> heap0
         /\ count_occ Bool.bool_dec fired true = 1%nat)
        \/ (Watch.done r' = false /\ h' = heap0
            /\ count_occ Bool.bool_dec fired true = 0%nat)).
Proof.
  exact (watcher_never_closes_twice (mkFile [] true) "ready"%string 0%nat
           heap0 ready_in_pieces eq_refl).
Defined.

Lemma readiness_depends_on_stream_only_witness :
  exists r' h' fired,
    Watch.feed (Watch.mk Discard [] "ready"%string (Some 0%nat) false) heap0
      ready_in_pieces = Some (r', h', fired)
    /\ (h' !! 0%nat = Some Chan.Closed
        <-> occurs "ready" (concat ready_in_pieces))
    /\ (forall i, (i < length ready_in_pieces)%nat ->
                  first_hit "ready" ready_in_pieces i ->
                  Watch.buf r' = concat (firstn (S i) ready_in_pieces)).
Proof.
  refine (readiness_depends_on_stream_only (fun _ : discard => True) Discard
            "ready"%string 0%nat heap0 ready_in_pieces discard_accepts_all I
            eq_refl _).
  discriminate.
Defined.

Lemma forwarding_to_open_file_is_lossless_witness :
  exists r' h' fired,
    Watch.feed (Watch.mk (mkFile (bytes "log: ") false) [] "ready"%string
                  (Some 0%nat) false) heap0 ready_in_pieces
    = Some (r', h', fired)
    /\ Watch.base r'
       = mkFile (bytes "log: " ++ concat ready_in_pieces) false.
Proof.
  exact (forwarding_to_open_file_is_lossless (mkFile (bytes "log: ") false)
           "ready"%string 0%nat heap0 ready_in_pieces eq_refl eq_refl).
Defined.

Lemma boot_failed_has_no_sentinel :
  forall i, (i < length boot_failed)%nat ->
            ~ hit "is now running" boot_failed i.
Proof.
  intros i L Hi. apply seen_hit in Hi.
  destruct i as [|[|i]]; [discriminate Hi | discriminate Hi |].
  simpl in L. lia.
Qed.

Lemma cmd_go_exit_without_sentinel_releases_main_witness :
  CmdGo.launch (mkFile [] false) ∅ None boot_failed
  = Returned (mkFile (bytes "boot failed") false,
              <[fst (Chan.make ∅) := Chan.Closed]> (snd (Chan.make ∅)))
  /\ Chan.ready (<[fst (Chan.make ∅) := Chan.Closed]> (snd (Chan.make ∅)))
       (Some (fst (Chan.make ∅))) = true.
Proof.
  exact (cmd_go_exit_without_sentinel_releases_main (mkFile [] false) ∅
           boot_failed eq_refl boot_failed_has_no_sentinel).
Defined.

Lemma Start_attaches_fresh_watcher_witness :
  exists a c,
    Supervisor.ready started0 = Some a /\ Supervisor.cmd started0 = Some c
    /\ omap made_of (trace_of run_start) = [a]
    /\ watcher_of c
       = Some (Watch.mk ioutil_Discard []
                 (Supervisor.ReadySentinel Supervisor.datastore0) (Some a)
                 false)
    /\ Stdout c = Nil /\ Stdin c = Nil /\ Proc.Env c = None
    /\ Supervisor.ReadySentinel started0
       = Supervisor.ReadySentinel Supervisor.datastore0.
Proof.
  exact (Start_attaches_fresh_watcher answer 100 false Supervisor.datastore0
           started0 None (world0 0 None) (trace_of run_start)
           (snd run_start) run_start_returns eq_refl).
Defined.

Lemma run_start_fails_returns :
  run_start_fails
  = (trace_of run_start_fails, Returned (failed0, Some (Errno 2)),
     snd run_start_fails).
Proof. vm_compute. reflexivity. Qed.

Lemma Start_cannot_be_retried_witness :
  start_failures (trace_of run_start_fails) = [Errno 2]
  /\ Supervisor.ready failed0 <> None
  /\ forall st2,
       exec answer_spawn_fails (Supervisor.Start 100 false failed0) st2
       = ([], Returned (failed0, Some (errors_New "already started")), st2).
Proof.
  split; [vm_compute; reflexivity |].
  exact (Start_cannot_be_retried answer_spawn_fails 100 false
           Supervisor.datastore0 failed0 (Some (Errno 2)) (world0 0 None)
           (trace_of run_start_fails) (snd run_start_fails)
           run_start_fails_returns).
Defined.

Lemma unstarted_emulator_blocks_or_panics_witness :
  exec answer (Supervisor.WaitReady Supervisor.datastore0) (world0 0 None)
  = ([], Blocked, world0 0 None)
  /\ outcome_of run_stop_unstarted = Panicked "nil pointer dereference"
  /\ ((trace_of run_stop_unstarted = [Pending (syscall_Kill (- 100) SIGTERM)]
       /\ outcome_of run_stop_unstarted = Blocked)
      \/ (exists err,
            trace_of run_stop_unstarted
            = [Ev (syscall_Kill (- 100) SIGTERM) (Some err)]
            /\ outcome_of run_stop_unstarted = Returned (Some err))
      \/ (trace_of run_stop_unstarted
          = [Ev (syscall_Kill (- 100) SIGTERM) None]
          /\ outcome_of run_stop_unstarted
             = Panicked "nil pointer dereference")).
Proof.
  split.
  - exact (proj1 (unstarted_emulator_blocks_or_panics answer 100
                    Supervisor.datastore0 (world0 0 None)) eq_refl).
  - split; [vm_compute; reflexivity |].
    exact (proj2 (unstarted_emulator_blocks_or_panics answer 100
                    Supervisor.datastore0 (world0 0 None)) eq_refl
             (trace_of run_stop_unstarted) (outcome_of run_stop_unstarted)
             (snd run_stop_unstarted) (run_eta run_stop_unstarted)).
Defined.



Lemma run_env_exits_0 : exit_status (outcome_of run_env) = Some 0.
Proof. vm_compute. reflexivity. Qed.

Lemma exit_0_iff_clean_run_witness :
  exit_status (outcome_of run_env) = Some 0
  /\ exists d0 p0 a1 a2 c d p,
       map call_of (trace_of run_env)
       = [syscall_Setpgid 100 100; os_FindProcess (- 100);
          go_forward (- 100); signal_Notify [SIGINT; SIGTERM; SIGHUP];
          make_chan; cmd_Start d0; make_chan; cmd_Start p0;
          chan_recv a1; chan_recv a2; os_Environ;
          cmd_CombinedOutput
            (exec_Command "gcloud"
               (tl (Supervisor.EnvCommand Supervisor.datastore0)));
          cmd_CombinedOutput
            (exec_Command "gcloud"
               (tl (Supervisor.EnvCommand Supervisor.pubsub0)));
          cmd_Run c;
          syscall_Kill (- 100) SIGTERM; cmd_Wait d;
          syscall_Kill (- 100) SIGTERM; cmd_Wait p]
       /\ omap made_of (trace_of run_env) = [a1; a2]
       /\ map Args [d0; p0; d; p]
          = [Supervisor.Command Supervisor.datastore0;
             Supervisor.Command Supervisor.pubsub0;
             Supervisor.Command Supervisor.datastore0;
             Supervisor.Command Supervisor.pubsub0]
       /\ target_result (trace_of run_env) = Some (c, None)
       /\ stop_failures (trace_of run_env) = []
       /\ forallb returned (trace_of run_env) = true.
Proof.
  split; [exact run_env_exits_0 |].
  exact (proj1 (exit_0_iff_clean_run answer 100 false ["env"%string]
                  (world0 0 None) (trace_of run_env) (outcome_of run_env)
                  (snd run_env) (run_eta run_env)) run_env_exits_0).
Defined.

Lemma no_target_command_panics_after_startup_witness :
  outcome_of run_no_args = Panicked "index out of range"
  /\ target_result (trace_of run_no_args) = None
  /\ omap kill_of (trace_of run_no_args) = []
  /\ (forall n, exit_status (outcome_of run_no_args) = Some n ->
                n = 1 \/ n = 2)
  /\ (exit_status (outcome_of run_no_args) = Some 2 ->
      outcome_of run_no_args = Panicked "index out of range"
      /\ length (omap started_of (trace_of run_no_args)) = 2%nat
      /\ start_failures (trace_of run_no_args) = []
      /\ length (omap output_of (trace_of run_no_args)) = 2%nat
      /\ helper_failures (trace_of run_no_args) = []
      /\ omap recv_of (trace_of run_no_args)
         = omap made_of (trace_of run_no_args)).
Proof.
  split; [vm_compute; reflexivity |].
  exact (no_target_command_panics_after_startup answer 100 false
           (world0 0 None) (trace_of run_no_args) (outcome_of run_no_args)
           (snd run_no_args) (run_eta run_no_args)).
Defined.


Lemma run_env_waits : omap recv_of (trace_of run_env) <> [].
Proof. vm_compute. discriminate. Qed.

Lemma both_started_before_any_wait_witness :
  omap recv_of (trace_of run_env) <> []
  /\ exists a1 a2,
       omap made_of (trace_of run_env) = [a1; a2]
       /\ (omap recv_of (trace_of run_env) = [a1]
           \/ omap recv_of (trace_of run_env) = [a1; a2])
       /\ length (omap started_of (before_recv (trace_of run_env))) = 2%nat
       /\ omap recv_of (before_recv (trace_of run_env)) = []
       /\ start_failures (trace_of run_env) = [].
Proof.
  split; [exact run_env_waits |].
  exact (both_started_before_any_wait answer 100 false ["env"%string]
           (world0 0 None) (trace_of run_env) (outcome_of run_env)
           (snd run_env) (run_eta run_env) run_env_waits).
Defined.

Lemma run_variant_reaches_target :
  target_result (trace_of run_variant) = Some (variant_target_cmd, None).
Proof. vm_compute. reflexivity. Qed.

Lemma variant_target_env_and_groups_witness :
  target_result (trace_of run_variant) = Some (variant_target_cmd, None)
  /\ exists environ out1 out2,
       omap environ_of (trace_of run_variant) = [environ]
       /\ map Args (omap started_of (trace_of run_variant))
          = [PubSubVariant.start_line PubSubVariant.Datastore;
             PubSubVariant.start_line PubSubVariant.PubSub]
       /\ map Attr (omap started_of (trace_of run_variant))
          = [Some (mkAttr true 0); Some (mkAttr true 0)]
       /\ map (fun x => Args (fst x)) (omap output_of (trace_of run_variant))
          = [PubSubVariant.env_line PubSubVariant.Datastore;
             PubSubVariant.env_line PubSubVariant.PubSub]
       /\ map snd (omap output_of (trace_of run_variant)) = [out1; out2]
       /\ Proc.Env variant_target_cmd
          = Some (environ ++ Supervisor.env_of_output out1
                    ++ Supervisor.env_of_output out2)
       /\ Attr variant_target_cmd = None
       /\ Args variant_target_cmd = ["env"%string].
Proof.
  split; [exact run_variant_reaches_target |].
  exact (variant_target_env_and_groups answer false ["env"%string]
           (world0 0 None) (trace_of run_variant) (outcome_of run_variant)
           (snd run_variant) variant_target_cmd None (run_eta run_variant)
           run_variant_reaches_target).
Defined.

Lemma run_variant_exits_0 : exit_status (outcome_of run_variant) = Some 0.
Proof. vm_compute. reflexivity. Qed.

Lemma variant_teardown_signals_each_group_witness :
  exit_status (outcome_of run_variant) = Some 0
  /\ exists d p p1 p2 g1 g2 w1 w2,
       map Args [d; p]
       = [PubSubVariant.start_line PubSubVariant.Datastore;
          PubSubVariant.start_line PubSubVariant.PubSub]
       /\ Process d = Some p1 /\ Process p = Some p2
       /\ after_run (trace_of run_variant)
          = [Ev (syscall_Getpgid p1) (g1, None);
             Ev (syscall_Kill (- g1) SIGTERM) None; Ev (cmd_Wait d) w1;
             Ev (syscall_Getpgid p2) (g2, None);
             Ev (syscall_Kill (- g2) SIGTERM) None; Ev (cmd_Wait p) w2].
Proof.
  split; [exact run_variant_exits_0 |].
  exact (proj2 (variant_teardown_signals_each_group answer false
                  ["env"%string] (world0 0 None) (trace_of run_variant)
                  (outcome_of run_variant) (snd run_variant)
                  variant_target_cmd None (run_eta run_variant)
                  run_variant_reaches_target) run_variant_exits_0).
Defined.

Lemma cmd_go_main_rest_runs_witness :
  target_result (trace_of run_cmd_go) = Some (cmd_go_target_cmd, None)
  /\ omap kill_of (trace_of run_cmd_go) = []
  /\ omap wait_of (trace_of run_cmd_go) = []
  /\ (forall c r, target_result (trace_of run_cmd_go) = Some (c, r) ->
      exists out environ,
        map snd (omap output_of (trace_of run_cmd_go)) = [out]
        /\ omap environ_of (trace_of run_cmd_go) = [environ]
        /\ Proc.Env c = Some (Supervisor.env_of_output out ++ environ)
        /\ Args c = tl ["with_emulators"; "env"]%string
        /\ Stdin c = Nil /\ Attr c = None
        /\ (forall n, exit_status (outcome_of run_cmd_go) = Some n ->
                      (n = 0 /\ r = None) \/ (n = 1 /\ r <> None)))
  /\ (forall n, exit_status (outcome_of run_cmd_go) = Some n ->
                n = 0 \/ n = 1 \/ n = 2)
  /\ ((length ["with_emulators"; "env"]%string < 2)%nat ->
      target_result (trace_of run_cmd_go) = None).
Proof.
  split; [vm_compute; reflexivity |].
  exact (cmd_go_main_rest_runs answer ["with_emulators"; "env"]%string
           (world0 0 None) (trace_of run_cmd_go) (outcome_of run_cmd_go)
           (snd run_cmd_go) (run_eta run_cmd_go)).
Defined.

Lemma sigch_never_holds_two_witness :
  Signals.sigch (Signals.run (- 100) two_signals Signals.init) = [SIGTERM]
  /\ (length (Signals.sigch (Signals.run (- 100) two_signals Signals.init))
      <= 1)%nat
  /\ (forall s,
        length (Signals.sigch (Signals.run (- 100) two_signals Signals.init))
        = 1%nat ->
        Signals.sigch
          (Signals.deliver s (Signals.run (- 100) two_signals Signals.init))
        = Signals.sigch (Signals.run (- 100) two_signals Signals.init)
        /\ Signals.received
             (Signals.deliver s
                (Signals.run (- 100) two_signals Signals.init))
           = Signals.received (Signals.run (- 100) two_signals Signals.init)
               ++ [s])
  /\ (length (Signals.sent (Signals.run (- 100) two_signals Signals.init))
      <= 1)%nat
  /\ (forall s,
        In s (Signals.sigch (Signals.run (- 100) two_signals Signals.init)) ->
        In s (Signals.received
                (Signals.run (- 100) two_signals Signals.init))).
Proof.
  split; [reflexivity |].
  exact (sigch_never_holds_two (- 100)
           (Signals.run (- 100) two_signals Signals.init)
           (run_reach (- 100) two_signals Signals.init)).
Defined.
